(** * gocsi: plug-in registry, in-memory pipe listener, forwarding endpoint,
      and the endpoint address parser

    A shallow embedding of
    - [csc/utils.go] and [gocsi/mock/main.go]: [addrRX], [ParseProtoAddr],
      [parseProtoAddr];
    - the [gocsi] package: [Init], [loadSharedObjects], [New], [pipeConn]
      ([Dial], [Accept], [Close]) and the forwarding [endpoint].

    Go strings are byte sequences: they are [string] (a list of 8-bit
    [ascii]) here.  The regular expression of [addrRX] is kept as a syntax
    tree and run by a leftmost-first backtracking matcher over UTF-8 decoded
    runes, which is the semantics of Go's [regexp] package for the
    operators the pattern uses. *)

From Stdlib Require Import ZArith NArith Ascii String List Lia Bool Arith.
From stdpp Require Import gmap strings list fin_maps.
Import ListNotations.

(** ** Go's [unicode/utf8] and [unicode] packages, as far as [regexp] uses
       them on this pattern *)
Module Utf8.
Local Open Scope N_scope.

Definition RuneError : N := 0xFFFD.

Definition inRange (lo hi b : N) : bool := (lo <=? b) && (b <=? hi).

(** The table [first] of [unicode/utf8] for the bytes from 0x80 on: the
    size of the encoding a first byte announces and the bounds it puts on
    the second byte; [None] for a byte that starts no encoding. *)
Definition first (p0 : N) : option (nat * (N * N)) :=
  if p0 <? 0xC2 then None
  else if p0 <? 0xE0 then Some (2%nat, (0x80, 0xBF))
  else if p0 =? 0xE0 then Some (3%nat, (0xA0, 0xBF))
  else if p0 =? 0xED then Some (3%nat, (0x80, 0x9F))
  else if p0 <? 0xF0 then Some (3%nat, (0x80, 0xBF))
  else if p0 =? 0xF0 then Some (4%nat, (0x90, 0xBF))
  else if p0 <? 0xF4 then Some (4%nat, (0x80, 0xBF))
  else if p0 =? 0xF4 then Some (4%nat, (0x80, 0x8F))
  else None.

(** [utf8.DecodeRuneInString]: the rune at the head of [p] and its width
    in bytes.  Width 0 only for the empty input; an invalid or short
    encoding yields [(RuneError, 1)]. *)
Definition DecodeRune (p : list N) : N * nat :=
  match p with
  | [] => (RuneError, 0%nat)
  | p0 :: q =>
    if p0 <? 0x80 then (p0, 1%nat)
    else
      match first p0 with
      | None => (RuneError, 1%nat)
      | Some (sz, (lo, hi)) =>
        if (length p <? sz)%nat then (RuneError, 1%nat)
        else
          match q with
          | [] => (RuneError, 1%nat)
          | b1 :: q1 =>
            if negb (inRange lo hi b1) then (RuneError, 1%nat)
            else if (sz <=? 2)%nat then ((p0 mod 0x20) * 0x40 + b1 mod 0x40, 2%nat)
            else
              match q1 with
              | [] => (RuneError, 1%nat)
              | b2 :: q2 =>
                if negb (inRange 0x80 0xBF b2) then (RuneError, 1%nat)
                else if (sz <=? 3)%nat then
                  ((p0 mod 0x10) * 0x1000 + (b1 mod 0x40) * 0x40 + b2 mod 0x40, 3%nat)
                else
                  match q2 with
                  | [] => (RuneError, 1%nat)
                  | b3 :: _ =>
                    if negb (inRange 0x80 0xBF b3) then (RuneError, 1%nat)
                    else ((p0 mod 0x08) * 0x40000 + (b1 mod 0x40) * 0x1000
                          + (b2 mod 0x40) * 0x40 + b3 mod 0x40, 4%nat)
                  end
              end
          end
      end
  end.

Definition isLower (r : N) : bool := inRange 0x61 0x7A r.
Definition isUpper (r : N) : bool := inRange 0x41 0x5A r.

(** The orbit of an ASCII rune under [unicode.SimpleFold]: a letter folds
    with its other case; besides, U+212A (Kelvin sign) is in the orbit of
    [k] and U+017F (long s) in the orbit of [s].  Every other ASCII rune
    is alone in its orbit. *)
Definition foldOrbit (c : N) : list N :=
  let l := if isUpper c then c + 0x20 else c in
  if isLower l then
    [l; l - 0x20] ++ (if l =? 0x6B then [0x212A] else if l =? 0x73 then [0x17F] else [])
  else [c].

End Utf8.

(** ** Go's [regexp]: syntax tree and leftmost-first matching *)
Module Regexp.
Local Open Scope N_scope.

(** The operators of [regexp/syntax] that occur in [addrRX].  [Lit] is a
    literal under the [(?i)] flag. *)
Inductive regex : Type :=
| EmptyMatch
| Lit (c : ascii)
| CharClass (cs : list ascii)
| AnyCharNotNL
| Concat (a b : regex)
| Alternate (a b : regex)
| Quest (a : regex)
| Plus (a : regex)
| Capture (k : nat) (a : regex)
| BeginText
| EndText.

(** A literal string: its characters in sequence. *)
Fixpoint lits (s : string) : regex :=
  match s with
  | EmptyString => EmptyMatch
  | String c EmptyString => Lit c
  | String c s' => Concat (Lit c) (lits s')
  end.

(** A thread of the matcher: the offset in the text and the capture
    registers (group number, start and end offset), latest first. *)
Definition caps : Type := list (nat * (nat * nat)).
Definition thread : Type := (nat * caps)%type.

(** The bytes of a Go string, and back. *)
Definition bytes (s : string) : list N := map N_of_ascii (list_ascii_of_string s).
Definition ofBytes (t : list N) : string := string_of_list_ascii (map ascii_of_N t).

(** One rune at byte offset [i] of [t] satisfying [ok]. *)
Definition stepRune (ok : N -> bool) (t : list N) (th : thread) : list thread :=
  let '(r, w) := Utf8.DecodeRune (drop (fst th) t) in
  if (0 <? w)%nat && ok r then [((fst th + w)%nat, snd th)] else [].

Definition inList (rs : list N) (r : N) : bool := existsb (N.eqb r) rs.

(** One or more rounds of [step], greedy: after a round that moved on in
    the text, another round is tried before stopping there.  A round needs
    a byte, so a text of [n] bytes takes no more than [n] rounds. *)
Fixpoint iterate (step : thread -> list thread) (fuel : nat) (th : thread)
  : list thread :=
  match fuel with
  | O => []
  | S fuel' =>
    flat_map (fun th' =>
                (if (fst th <? fst th')%nat then iterate step fuel' th' else [])
                  ++ [th'])
             (step th)
  end.

(** [run a t th]: every way [a] matches [t] from the thread [th], in the
    order of preference of a backtracking matcher (Go's leftmost-first
    rule): the first alternative before the second, one more iteration
    before stopping. *)
Fixpoint run (a : regex) (t : list N) (th : thread) : list thread :=
  match a with
  | EmptyMatch => [th]
  | Lit c => stepRune (inList (Utf8.foldOrbit (N_of_ascii c))) t th
  | CharClass cs => stepRune (inList (map N_of_ascii cs)) t th
  | AnyCharNotNL => stepRune (fun r => negb (r =? 0x0A)) t th
  | Concat a b => flat_map (run b t) (run a t th)
  | Alternate a b => run a t th ++ run b t th
  | Quest a => run a t th ++ [th]
  | Plus a => iterate (run a t) (S (length t)) th
  | Capture k a =>
    map (fun th' => (fst th', (k, (fst th, fst th')) :: snd th')) (run a t th)
  | BeginText => if (fst th =? 0)%nat then [th] else []
  | EndText => if (fst th =? length t)%nat then [th] else []
  end.

Definition slice (t : list N) (i j : nat) : list N := take (j - i) (drop i t).

Fixpoint capOf (k : nat) (c : caps) : option (nat * nat) :=
  match c with
  | [] => None
  | (k', ij) :: c' => if (k =? k')%nat then Some ij else capOf k c'
  end.

(** The text of group [k]; the empty string for a group that took no
    part in the match. *)
Definition group (t : list N) (c : caps) (k : nat) : string :=
  match capOf k c with
  | Some (i, j) => ofBytes (slice t i j)
  | None => EmptyString
  end.

(** The search of an unanchored match: start offsets from the left, and
    at the first offset with a match the preferred thread. *)
Fixpoint search (a : regex) (t : list N) (starts : list nat) : option (nat * thread) :=
  match starts with
  | [] => None
  | i :: rest =>
    match run a t (i, []) with
    | th :: _ => Some (i, th)
    | [] => search a t rest
    end
  end.

(** [FindStringSubmatch] of a compiled pattern with [n] groups: [None] is
    Go's [nil]; otherwise the whole match and then the groups 1 to [n]. *)
Definition FindStringSubmatch (a : regex) (n : nat) (s : string) : option (list string) :=
  let t := bytes s in
  match search a t (seq 0 (S (length t))) with
  | None => None
  | Some (i, (j, c)) => Some (ofBytes (slice t i j) :: map (group t c) (seq 1 n))
  end.

End Regexp.

(** ** Errors

    Go's [error] values of the two programs.  [ErrInvalidCSIEndpoint] is
    declared in a file of [csc] other than [utils.go]; [External] stands for
    an error made by a library ([plugin], [encoding/csv], [grpc]). *)
Inductive error : Type :=
| ErrInvalidCSIEndpoint
| ErrInvalidAddress (protoAddr : string)
| errInvalidEndpointProvider
| ErrInvalidEndpointType (T : string)
| ErrInvalidEndpointsField (T : string)
| ErrNilEndpoints
| EOF
| External (msg : string).

(** ** The endpoint address parser *)

(** The first group: [(?:(?:tcp|udp|ip)[46]?)|(?:unix(?:gram|packet)?)] *)
Definition schemeRX : Regexp.regex :=
  let lits := Regexp.lits in
  let alt := Regexp.Alternate in
  let cat := Regexp.Concat in
  alt (cat (alt (alt (lits "tcp") (lits "udp")) (lits "ip"))
           (Regexp.Quest (Regexp.CharClass ["4"; "6"]%char)))
      (cat (lits "unix")
           (Regexp.Quest (alt (lits "gram") (lits "packet")))).

(** [(?i)^((?:(?:tcp|udp|ip)[46]?)|(?:unix(?:gram|packet)?))://(.+)$] *)
Definition addrRX : Regexp.regex :=
  let cat := Regexp.Concat in
  cat Regexp.BeginText
 (cat (Regexp.Capture 1 schemeRX)
 (cat (Regexp.lits "://")
 (cat (Regexp.Capture 2 (Regexp.Plus Regexp.AnyCharNotNL))
      Regexp.EndText))).

(** [m[k]] of a Go slice that is known to be long enough. *)
Definition index (m : list string) (k : nat) : string := nth k m EmptyString.

Module Csc.
(** [csc/utils.go] *)
Definition ParseProtoAddr (protoAddr : string) : string * string * option error :=
  match Regexp.FindStringSubmatch addrRX 2 protoAddr with
  | None => (EmptyString, EmptyString, Some ErrInvalidCSIEndpoint)
  | Some m => (index m 1, index m 2, None)
  end.
End Csc.

Module Mock.
(** [gocsi/mock/main.go] *)
Definition parseProtoAddr (protoAddr : string) : string * string * option error :=
  match Regexp.FindStringSubmatch addrRX 2 protoAddr with
  | None => (EmptyString, EmptyString, Some (ErrInvalidAddress protoAddr))
  | Some m => (index m 1, index m 2, None)
  end.
End Mock.

(** ** Writing a scheme in any letter case

    What it is for a string to be one of the schemes but for the case of
    its letters, byte by byte: a byte stands for a character when both are
    the same letter or the same other character; and, as Unicode folds
    them, the Kelvin sign U+212A (bytes E2 84 AA) stands for [k] and the
    long s U+017F (bytes C5 BF) for [s]. *)
Module Fold.
Local Open Scope N_scope.

Definition toLower (b : N) : N :=
  if (0x41 <=? b) && (b <=? 0x5A) then b + 0x20 else b.

Definition kelvin (p : list N) : bool :=
  match p with
  | a :: b :: c :: _ => (a =? 0xE2) && (b =? 0x84) && (c =? 0xAA)
  | _ => false
  end.

Definition longS (p : list N) : bool :=
  match p with
  | a :: b :: _ => (a =? 0xC5) && (b =? 0xBF)
  | _ => false
  end.

(** The number of bytes at the head of [p] that write the character [c]. *)
Definition foldBytes (c : N) (p : list N) : option nat :=
  match p with
  | [] => None
  | b :: _ =>
    if (b <? 0x80) && (toLower b =? toLower c) then Some 1%nat
    else if (toLower c =? 0x6B) && kelvin p then Some 3%nat
    else if (toLower c =? 0x73) && longS p then Some 2%nat
    else None
  end.

(** The number of bytes at the head of [p] that write the word [w]. *)
Fixpoint spellLen (w p : list N) : option nat :=
  match w with
  | [] => Some 0%nat
  | c :: w' =>
    match foldBytes c p with
    | Some n =>
      match spellLen w' (drop n p) with
      | Some m => Some (n + m)%nat
      | None => None
      end
    | None => None
    end
  end.

Definition spells (w p : list N) : bool :=
  match spellLen w p with
  | Some n => (n =? length p)%nat
  | None => false
  end.

Definition schemes : list string :=
  ["tcp"; "tcp4"; "tcp6"; "udp"; "udp4"; "udp6"; "ip"; "ip4"; "ip6";
   "unix"; "unixgram"; "unixpacket"]%string.

Definition isScheme (p : string) : bool :=
  existsb (fun w => spells (Regexp.bytes w) (Regexp.bytes p)) schemes.

Definition noNL (p : list N) : bool := forallb (fun b => negb (b =? 0x0A)) p.

Definition hasNewline (a : string) : bool := negb (noNL (Regexp.bytes a)).

Definition isASCII (w : string) : bool :=
  forallb (fun b => b <? 0x80) (Regexp.bytes w).

(** The bytes of [://], and a text that starts with them. *)
Definition colon : list N := [0x3A; 0x2F; 0x2F].

Definition colonSlashSlash (p : list N) : bool :=
  match p with
  | a :: b :: c :: _ => (a =? 0x3A) && (b =? 0x2F) && (c =? 0x2F)
  | _ => false
  end.

(** A text that is a scheme of [n] bytes, then [://], then one byte or
    more, none of them a newline; and the capture registers of the match
    of [addrRX] on such a text. *)
Definition parsesAt (t : list N) (n : nat) : Prop :=
  (exists w, In w schemes /\ spellLen (Regexp.bytes w) t = Some n) /\
  colonSlashSlash (drop n t) = true /\
  (n + 3 < length t)%nat /\
  noNL (drop (n + 3) t) = true.

Definition capsAt (t : list N) (n : nat) : Regexp.caps :=
  [(2, ((n + 3)%nat, length t)); (1, (0, n))]%nat.

(** The line feed, and the Kelvin sign in UTF-8. *)
Definition LF : string := String (ascii_of_N 0x0A) EmptyString.
Definition Kelvin : string :=
  String (ascii_of_N 0xE2) (String (ascii_of_N 0x84) (String (ascii_of_N 0xAA) EmptyString)).

End Fold.

(** ** [net.Pipe] and the piped connection [pipeConn] *)
Module Net.

(** A [net.Conn] made by [net.Pipe]: the number of the pipe and which of
    its two ends it is ([first] for the first result of [net.Pipe]). *)
Record Conn : Type := mkConn { pipe : nat; first : bool }.

Definition peer (c : Conn) : Conn := mkConn (pipe c) (negb (first c)).

Definition Conn_eqb (a b : Conn) : bool :=
  (pipe a =? pipe b)%nat && Bool.eqb (first a) (first b).

(** The bytes travelling on the pipes: [wire c] is what has been written
    for the end [c] to read. *)
Definition wires : Type := Conn -> list ascii.

Definition noData : wires := fun _ => [].



End Net.

Module Pipe.
Import Net.

(** [pipeConn] with the unbuffered channel [chcn] written out: whether
    the channel is closed, the goroutines that [Dial] started and that
    have not reached their send yet, and those blocked in the send, in
    the order they arrived.  [pipes] counts the calls of [net.Pipe]; a
    panic of any goroutine ends the process. *)
Record pipeConn : Type := mkPipeConn {
  addr : string;
  closed : bool;
  started : list Conn;
  sendq : list Conn;
  pipes : nat;
  panicked : bool
}.

Definition newPipeConn (name : string) : pipeConn :=
  mkPipeConn name false [] [] 0 false.

(** [r, w := net.Pipe(); go func() { p.chcn <- r }(); return w, nil] *)
Definition Dial (raddr : string) (timeout : Z) (p : pipeConn)
  : (option Conn * option error) * pipeConn :=
  let r := mkConn (pipes p) true in
  let w := mkConn (pipes p) false in
  ((Some w, None),
   mkPipeConn (addr p) (closed p) (started p ++ [r]) (sendq p)
              (S (pipes p)) (panicked p)).

Fixpoint remove1 (c : Conn) (l : list Conn) : list Conn :=
  match l with
  | [] => []
  | d :: l' => if Conn_eqb c d then l' else d :: remove1 c l'
  end.

(** The goroutine of [Dial] holding [c] reaches [p.chcn <- r]: a send on
    a closed channel panics, on an open one it waits for a receiver. *)
Definition send (c : Conn) (p : pipeConn) : pipeConn :=
  if closed p then
    mkPipeConn (addr p) true (remove1 c (started p)) (sendq p) (pipes p) true
  else
    mkPipeConn (addr p) false (remove1 c (started p)) (sendq p ++ [c])
               (pipes p) (panicked p).

(** [for c := range p.chcn { return c, nil }; return nil, nil].  The
    result [None] is a receive that blocks: the channel is open and no
    sender waits. *)
Definition Accept (p : pipeConn)
  : option ((option Conn * option error) * pipeConn) :=
  match sendq p with
  | c :: q =>
    Some ((Some c, None),
          mkPipeConn (addr p) (closed p) (started p) q (pipes p) (panicked p))
  | [] => if closed p then Some ((None, None), p) else None
  end.

(** [close(p.chcn); return nil].  Closing a closed channel panics, and
    so does every sender that waits on the channel being closed. *)
Definition Close (p : pipeConn) : option error * pipeConn :=
  (None,
   mkPipeConn (addr p) true (started p) []
              (pipes p)
              (panicked p || closed p
               || match sendq p with [] => false | _ :: _ => true end)).

(** [Addr]: the network is the fixed name [modcsi]. *)
Definition Addr (p : pipeConn) : string * string := ("modcsi"%string, addr p).

(** What the bridge does, one event at a time, while the process runs. *)
Inductive event : Type :=
| EvDial (raddr : string) (timeout : Z) (ret : option Conn) (err : option error)
| EvSend (c : Conn)
| EvAccept (ret : option Conn) (err : option error)
| EvClose.

Inductive step : pipeConn -> event -> pipeConn -> Prop :=
| StepDial p raddr timeout :
    panicked p = false ->
    step p (EvDial raddr timeout (fst (fst (Dial raddr timeout p)))
                   (snd (fst (Dial raddr timeout p))))
         (snd (Dial raddr timeout p))
| StepSend p c :
    panicked p = false -> In c (started p) ->
    step p (EvSend c) (send c p)
| StepAccept p ret err p' :
    panicked p = false -> Accept p = Some ((ret, err), p') ->
    step p (EvAccept ret err) p'
| StepClose p :
    panicked p = false ->
    step p EvClose (snd (Close p)).

(** A run: the events from one state to another, oldest first. *)
Inductive run : pipeConn -> list event -> pipeConn -> Prop :=
| RunNil p : run p [] p
| RunCons p e p' tr p'' : step p e p' -> run p' tr p'' -> run p (e :: tr) p''.

Definition isClose (e : event) : bool :=
  match e with EvClose => true | _ => false end.

(** A trace in which nobody closes the bridge. *)
Definition quiet (tr : list event) : bool :=
  forallb (fun e => negb (isClose e)) tr.

(** On a closed channel no sender waits. *)
Definition settled (p : pipeConn) : Prop :=
  closed p = true -> sendq p = [].

(** The streams that the calls of [Dial], and of [Accept], returned. *)
Fixpoint dialed (tr : list event) : list Conn :=
  match tr with
  | [] => []
  | EvDial _ _ (Some c) _ :: tr' => c :: dialed tr'
  | _ :: tr' => dialed tr'
  end.

Fixpoint accepted (tr : list event) : list Conn :=
  match tr with
  | [] => []
  | EvAccept (Some c) _ :: tr' => c :: accepted tr'
  | _ :: tr' => accepted tr'
  end.

End Pipe.

(** ** Package [gocsi]: the registry of endpoint providers and the
       forwarding endpoint *)
Module Gocsi.
Import Net Pipe.

(** A fallible result of a library call: a value or an error. *)
Inductive result (A : Type) : Type :=
| Ok (a : A)
| Err (e : error).
Arguments Ok {A} a.
Arguments Err {A} e.

(** The service groups and the remote methods of the CSI services. *)
Inductive group : Type := Controller | Identity | Node.

Inductive method : Type :=
| MCreateVolume | MDeleteVolume | MControllerPublishVolume
| MControllerUnpublishVolume | MValidateVolumeCapabilities | MListVolumes
| MGetCapacity | MControllerGetCapabilities
| MGetSupportedVersions | MGetPluginInfo
| MNodePublishVolume | MNodeUnpublishVolume | MGetNodeID | MProbeNode
| MNodeGetCapabilities.

Definition groupOf (m : method) : group :=
  match m with
  | MCreateVolume | MDeleteVolume | MControllerPublishVolume
  | MControllerUnpublishVolume | MValidateVolumeCapabilities | MListVolumes
  | MGetCapacity | MControllerGetCapabilities => Controller
  | MGetSupportedVersions | MGetPluginInfo => Identity
  | MNodePublishVolume | MNodeUnpublishVolume | MGetNodeID | MProbeNode
  | MNodeGetCapabilities => Node
  end.

Section Package.

(** [context.Context], the request and response messages of [csi], a
    [*grpc.ClientConn], and the state of everything the package calls
    into: the plug-in behind an endpoint and the gRPC runtime. *)
Variables Context request response ClientConn X : Type.

(** The part of the world an endpoint's calls work on: its piped
    connection and the state outside the package. *)
Definition world : Type := (pipeConn * X)%type.

(** [type Endpoint interface { Init; Serve; Shutdown }] *)
Record Endpoint : Type := mkEndpoint {
  ep_Init : Context -> world -> option error * world;
  ep_Serve : Context -> world -> option error * world;
  ep_Shutdown : Context -> world -> option error * world
}.

(** A value of type [interface{}] that a provider's constructor
    returns: an [Endpoint], or a value of another type [T]. *)
Inductive value : Type :=
| IsEndpoint (e : Endpoint)
| NotEndpoint (T : string).

Definition ctor : Type := unit -> value.

(** What [p.Lookup] finds: a [*map[string]func() interface{}], which
    may be a nil pointer, or a symbol of another type [T]. *)
Inductive symbol : Type :=
| SymEndpoints (eps : option (gmap string ctor))
| SymOther (T : string).

(** [*plugin.Plugin] *)
Record Plugin : Type := mkPlugin {
  Lookup : string -> result symbol
}.

(** The process environment and the libraries [loadSharedObjects]
    calls: [os.Getenv], the first record of a [csv.Reader] over a
    string, and [plugin.Open]. *)
Variable Getenv : string -> string.
Variable csvRead : string -> list string * option error.
Variable pluginOpen : string -> result Plugin.

(** The package variables [initOnce] and [endpointCtors]; [loads]
    counts the runs of [loadSharedObjects] (it is not in the program:
    it is there to state how often the loading ran). *)
Record pkg : Type := mkPkg {
  initOnce : bool;
  endpointCtors : gmap string ctor;
  loads : nat
}.

(** [for k, v := range *eps { endpointCtors[k] = v }] *)
Definition record (eps ctors : gmap string ctor) : gmap string ctor :=
  map_fold (fun k v acc => <[k:=v]> acc) ctors eps.

(** The loop over the shared objects; it returns at the first error
    and keeps what earlier iterations recorded. *)
Fixpoint loadEach (sos : list string) (ctors : gmap string ctor)
  : option error * gmap string ctor :=
  match sos with
  | [] => (None, ctors)
  | so :: rest =>
    match pluginOpen so with
    | Err e => (Some e, ctors)
    | Ok p =>
      match Lookup p "Endpoints" with
      | Err e => (Some e, ctors)
      | Ok (SymOther T) => (Some (ErrInvalidEndpointsField T), ctors)
      | Ok (SymEndpoints None) => (Some ErrNilEndpoints, ctors)
      | Ok (SymEndpoints (Some eps)) => loadEach rest (record eps ctors)
      end
    end
  end.

Definition isEOF (e : error) : bool :=
  match e with EOF => true | _ => false end.

Definition loadSharedObjects (ctx : Context) (s : pkg) : option error * pkg :=
  let s := mkPkg (initOnce s) (endpointCtors s) (S (loads s)) in
  let '(sos, err) := csvRead (Getenv "CSI_PLUGINS") in
  if match err with Some e => negb (isEOF e) | None => false end then (err, s)
  else if (length sos =? 0)%nat then (None, s)
  else
    let '(r, m) := loadEach sos (endpointCtors s) in
    (r, mkPkg (initOnce s) m (loads s)).

(** [var err error; initOnce.Do(func() { err = loadSharedObjects(ctx) });
    return err]: [Do] runs the function only when [initOnce] has not
    run one before, and [err] is a variable of this call. *)
Definition Init (ctx : Context) (s : pkg) : option error * pkg :=
  let err := None in
  if initOnce s then (err, s)
  else
    let '(err, s') := loadSharedObjects ctx s in
    (err, mkPkg true (endpointCtors s') (loads s')).

(** Calls of [Init] one after the other; their results, oldest first. *)
Fixpoint InitTimes (n : nat) (ctx : Context) (s : pkg) : list (option error) * pkg :=
  match n with
  | O => ([], s)
  | S n' =>
    let '(r, s1) := Init ctx s in
    let '(rs, s2) := InitTimes n' ctx s1 in
    (r :: rs, s2)
  end.

(** [type endpoint struct { once; name; endp; conn; clnt }]; no method
    uses [once] or [clnt].  [conn] is the piped connection the endpoint
    owns, in its current state. *)
Record endpoint : Type := mkendpoint {
  name : string;
  endp : Endpoint;
  conn : pipeConn
}.

(** Go leaves the order of [range] over a map open, and it may differ
    from one loop to the next: [rangeOrder] is the order this loop
    takes.  [EqualFold] is [strings.EqualFold]. *)
Variable EqualFold : string -> string -> bool.
Variable rangeOrder : gmap string ctor -> list (string * ctor).

(** The loop of [New] over [endpointCtors]. *)
Fixpoint lookupCtor (name : string) (entries : list (string * ctor))
  : result endpoint :=
  match entries with
  | [] => Err errInvalidEndpointProvider
  | (k, v) :: rest =>
    if EqualFold k name then
      match v tt with
      | IsEndpoint e => Ok (mkendpoint k e (newPipeConn k))
      | NotEndpoint T => Err (ErrInvalidEndpointType T)
      end
    else lookupCtor name rest
  end.

(** What [New] returns for the provider [k] with the constructor [v]. *)
Definition construct (k : string) (v : ctor) : result endpoint :=
  match v tt with
  | IsEndpoint e => Ok (mkendpoint k e (newPipeConn k))
  | NotEndpoint T => Err (ErrInvalidEndpointType T)
  end.

Definition New (ctx : Context) (name : string) (s : pkg)
  : result endpoint * pkg :=
  match Init ctx s with
  | (Some err, s') => (Err err, s')
  | (None, s') => (lookupCtor name (rangeOrder (endpointCtors s')), s')
  end.

(** A call into the plug-in or into gRPC, which works on the piped
    connection of the endpoint and on the outside state. *)
Definition onWorld {A : Type} (f : world -> A * world) (e : endpoint) (x : X)
  : A * (endpoint * X) :=
  let '(a, (c, x')) := f (conn e, x) in
  (a, (mkendpoint (name e) (endp e) c, x')).

Definition endpoint_Init (ctx : Context) (e : endpoint) (x : X)
  : option error * (endpoint * X) :=
  onWorld (ep_Init (endp e) ctx) e x.

(** The listener [li] of the caller is not used. *)
Definition endpoint_Serve (ctx : Context) (li : option pipeConn)
           (e : endpoint) (x : X) : option error * (endpoint * X) :=
  onWorld (ep_Serve (endp e) ctx) e x.

(** [e.endp.Shutdown(ctx); e.conn.Close(); return nil] *)
Definition endpoint_Shutdown (ctx : Context) (e : endpoint) (x : X)
  : option error * (endpoint * X) :=
  let '(_, (e1, x1)) := onWorld (ep_Shutdown (endp e) ctx) e x in
  let '(_, c2) := Close (conn e1) in
  (None, (mkendpoint (name e1) (endp e1) c2, x1)).

(** [grpc.DialContext] with the target, and the dialer given by
    [grpc.WithDialer]; and the call of a remote method on a client
    connection, as the generated clients of [csi] make it. *)
Definition dialer : Type :=
  string -> Z -> pipeConn -> (option Conn * option error) * pipeConn.
Variable DialContext :
  Context -> string -> dialer -> world -> result ClientConn * world.
Variable Invoke :
  ClientConn -> method -> Context -> request -> world ->
  (option response * option error) * world.

(** A client of one service group: [csi.NewControllerClient] and its
    like wrap the connection. *)
Inductive client (g : group) : Type := NewClient (c : ClientConn).
Arguments NewClient {g} c.

Definition call {g : group} (c : client g) (m : method) (ctx : Context)
           (req : request) : world -> (option response * option error) * world :=
  match c with NewClient cc => Invoke cc m ctx req end.

Definition dial (ctx : Context) (e : endpoint) (x : X)
  : result ClientConn * (endpoint * X) :=
  onWorld (DialContext ctx (name e) Dial) e x.

Definition dialController (ctx : Context) (e : endpoint) (x : X)
  : result (client Controller) * (endpoint * X) :=
  match dial ctx e x with
  | (Err err, s) => (Err err, s)
  | (Ok c, s) => (Ok (NewClient c), s)
  end.

Definition dialIdentity (ctx : Context) (e : endpoint) (x : X)
  : result (client Identity) * (endpoint * X) :=
  match dial ctx e x with
  | (Err err, s) => (Err err, s)
  | (Ok c, s) => (Ok (NewClient c), s)
  end.

Definition dialNode (ctx : Context) (e : endpoint) (x : X)
  : result (client Node) * (endpoint * X) :=
  match dial ctx e x with
  | (Err err, s) => (Err err, s)
  | (Ok c, s) => (Ok (NewClient c), s)
  end.

Definition rpc : Type :=
  Context -> request -> endpoint -> X ->
  (option response * option error) * (endpoint * X).

Definition CreateVolume : rpc := fun ctx req e x =>
  match dialController ctx e x with
  | (Err err, s) => ((None, Some err), s)
  | (Ok c, (e', x')) => onWorld (call c MCreateVolume ctx req) e' x'
  end.

Definition DeleteVolume : rpc := fun ctx req e x =>
  match dialController ctx e x with
  | (Err err, s) => ((None, Some err), s)
  | (Ok c, (e', x')) => onWorld (call c MDeleteVolume ctx req) e' x'
  end.

Definition ControllerPublishVolume : rpc := fun ctx req e x =>
  match dialController ctx e x with
  | (Err err, s) => ((None, Some err), s)
  | (Ok c, (e', x')) => onWorld (call c MControllerPublishVolume ctx req) e' x'
  end.

Definition ControllerUnpublishVolume : rpc := fun ctx req e x =>
  match dialController ctx e x with
  | (Err err, s) => ((None, Some err), s)
  | (Ok c, (e', x')) => onWorld (call c MControllerUnpublishVolume ctx req) e' x'
  end.

Definition ValidateVolumeCapabilities : rpc := fun ctx req e x =>
  match dialController ctx e x with
  | (Err err, s) => ((None, Some err), s)
  | (Ok c, (e', x')) => onWorld (call c MValidateVolumeCapabilities ctx req) e' x'
  end.

Definition ListVolumes : rpc := fun ctx req e x =>
  match dialController ctx e x with
  | (Err err, s) => ((None, Some err), s)
  | (Ok c, (e', x')) => onWorld (call c MListVolumes ctx req) e' x'
  end.

Definition GetCapacity : rpc := fun ctx req e x =>
  match dialController ctx e x with
  | (Err err, s) => ((None, Some err), s)
  | (Ok c, (e', x')) => onWorld (call c MGetCapacity ctx req) e' x'
  end.

Definition ControllerGetCapabilities : rpc := fun ctx req e x =>
  match dialController ctx e x with
  | (Err err, s) => ((None, Some err), s)
  | (Ok c, (e', x')) => onWorld (call c MControllerGetCapabilities ctx req) e' x'
  end.

Definition GetSupportedVersions : rpc := fun ctx req e x =>
  match dialIdentity ctx e x with
  | (Err err, s) => ((None, Some err), s)
  | (Ok c, (e', x')) => onWorld (call c MGetSupportedVersions ctx req) e' x'
  end.

Definition GetPluginInfo : rpc := fun ctx req e x =>
  match dialIdentity ctx e x with
  | (Err err, s) => ((None, Some err), s)
  | (Ok c, (e', x')) => onWorld (call c MGetPluginInfo ctx req) e' x'
  end.

Definition NodePublishVolume : rpc := fun ctx req e x =>
  match dialNode ctx e x with
  | (Err err, s) => ((None, Some err), s)
  | (Ok c, (e', x')) => onWorld (call c MNodePublishVolume ctx req) e' x'
  end.

Definition NodeUnpublishVolume : rpc := fun ctx req e x =>
  match dialNode ctx e x with
  | (Err err, s) => ((None, Some err), s)
  | (Ok c, (e', x')) => onWorld (call c MNodeUnpublishVolume ctx req) e' x'
  end.

Definition GetNodeID : rpc := fun ctx req e x =>
  match dialNode ctx e x with
  | (Err err, s) => ((None, Some err), s)
  | (Ok c, (e', x')) => onWorld (call c MGetNodeID ctx req) e' x'
  end.

Definition ProbeNode : rpc := fun ctx req e x =>
  match dialNode ctx e x with
  | (Err err, s) => ((None, Some err), s)
  | (Ok c, (e', x')) => onWorld (call c MProbeNode ctx req) e' x'
  end.

Definition NodeGetCapabilities : rpc := fun ctx req e x =>
  match dialNode ctx e x with
  | (Err err, s) => ((None, Some err), s)
  | (Ok c, (e', x')) => onWorld (call c MNodeGetCapabilities ctx req) e' x'
  end.

Definition dialGroup (g : group) (ctx : Context) (e : endpoint) (x : X)
  : result (client g) * (endpoint * X) :=
  match g with
  | Controller => dialController ctx e x
  | Identity => dialIdentity ctx e x
  | Node => dialNode ctx e x
  end.

(** The method of the endpoint that serves the remote method [m]. *)
Definition serve (m : method) : rpc :=
  match m with
  | MCreateVolume => CreateVolume
  | MDeleteVolume => DeleteVolume
  | MControllerPublishVolume => ControllerPublishVolume
  | MControllerUnpublishVolume => ControllerUnpublishVolume
  | MValidateVolumeCapabilities => ValidateVolumeCapabilities
  | MListVolumes => ListVolumes
  | MGetCapacity => GetCapacity
  | MControllerGetCapabilities => ControllerGetCapabilities
  | MGetSupportedVersions => GetSupportedVersions
  | MGetPluginInfo => GetPluginInfo
  | MNodePublishVolume => NodePublishVolume
  | MNodeUnpublishVolume => NodeUnpublishVolume
  | MGetNodeID => GetNodeID
  | MProbeNode => ProbeNode
  | MNodeGetCapabilities => NodeGetCapabilities
  end.

End Package.

Arguments Ok {A} a.
Arguments Err {A} e.
Arguments IsEndpoint {Context X} e.
Arguments NotEndpoint {Context X} T.
Arguments SymEndpoints {Context X} eps.
Arguments SymOther {Context X} T.
Arguments mkPkg {Context X} _ _ _.
Arguments mkendpoint {Context X} _ _ _.

(** [strings.EqualFold] on ASCII strings. *)
Definition toLower (c : ascii) : ascii :=
  let n := nat_of_ascii c in
  if (65 <=? n)%nat && (n <=? 90)%nat then ascii_of_nat (n + 32) else c.

Fixpoint EqualFoldASCII (s t : string) : bool :=
  match s, t with
  | EmptyString, EmptyString => true
  | String a s', String b t' =>
    Ascii.eqb (toLower a) (toLower b) && EqualFoldASCII s' t'
  | _, _ => false
  end.

(** A sample world to run the package in: the context carries nothing,
    messages are strings, a client connection is the target it was
    dialled for, and the outside state counts the calls that reached a
    plug-in. *)
Module Sample.

Definition world : Type := (pipeConn * nat)%type.

(** A reader for a list of at most one location, without quotes. *)
Definition csvRead (s : string) : list string * option error :=
  match s with
  | EmptyString => ([], Some EOF)
  | _ => ([s], None)
  end.

Definition quietEndpoint : Endpoint unit nat :=
  mkEndpoint unit nat (fun _ w => (None, w)) (fun _ w => (None, w))
             (fun _ w => (None, w)).

(** An endpoint whose [Shutdown] fails. *)
Definition stuckEndpoint : Endpoint unit nat :=
  mkEndpoint unit nat (fun _ w => (None, w)) (fun _ w => (None, w))
             (fun _ w => (Some (External "shutdown failed"), w)).

Definition mockCtor : ctor unit nat := fun _ => IsEndpoint quietEndpoint.
Definition MOCKCtor : ctor unit nat := fun _ => IsEndpoint stuckEndpoint.

(** A plug-in file [mock.so] exporting the provider [mock], a file
    [two.so] exporting [mock] and [MOCK], and no other file. *)
Definition pluginOpen (so : string) : result (Plugin unit nat) :=
  if String.eqb so "mock.so" then
    Ok (mkPlugin unit nat (fun sym =>
          if String.eqb sym "Endpoints"
          then Ok (SymEndpoints (Some {[ "mock"%string := mockCtor ]}))
          else Err (External "plugin: symbol not found")))
  else if String.eqb so "two.so" then
    Ok (mkPlugin unit nat (fun sym =>
          if String.eqb sym "Endpoints"
          then Ok (SymEndpoints
                     (Some (<[ "MOCK"%string := MOCKCtor ]>
                              {[ "mock"%string := mockCtor ]})))
          else Err (External "plugin: symbol not found")))
  else Err (External "plugin.Open: no such file").

Definition fresh : pkg unit nat := mkPkg false ∅ 0.

(** Three settings of [CSI_PLUGINS], and two orders in which [range] may
    go over the providers of [two.so]. *)
Definition oneProvider : string -> string := fun _ => "mock.so"%string.
Definition twoProviders : string -> string := fun _ => "two.so"%string.
Definition noSuchFile : string -> string := fun _ => "missing.so"%string.
Definition unset : string -> string := fun _ => EmptyString.

Definition lowerFirst (_ : gmap string (ctor unit nat)) : list (string * ctor unit nat) :=
  [("mock"%string, mockCtor); ("MOCK"%string, MOCKCtor)].
Definition upperFirst (_ : gmap string (ctor unit nat)) : list (string * ctor unit nat) :=
  [("MOCK"%string, MOCKCtor); ("mock"%string, mockCtor)].

(** A gRPC runtime that connects at once through the dialer, refuses
    the empty target, and whose remote methods echo the request. *)
Definition DialContext (_ : unit) (target : string) (d : dialer) (w : world)
  : result string * world :=
  match target with
  | EmptyString => (Err (External "grpc: empty target"), w)
  | _ => (Ok target, (snd (d target 0%Z (fst w)), snd w))
  end.

Definition Invoke (c : string) (m : method) (_ : unit) (req : string) (w : world)
  : (option string * option error) * world :=
  ((Some req, None), (fst w, S (snd w))).

End Sample.
End Gocsi.

(** ** More of the piped connection *)
Module PipeMore.
Import Net Pipe.
(** The streams whose goroutines reached the send. *)
Fixpoint sent (tr : list event) : list Conn :=
  match tr with
  | [] => []
  | EvSend c :: tr' => c :: sent tr'
  | _ :: tr' => sent tr'
  end.
End PipeMore.

(** ** The loading, one shared object at a time *)
Module Load.
Import Gocsi.
Section Load.
Variables Context X : Type.
Variable pluginOpen : string -> result (Plugin Context X).

(** One round of the loop of [loadSharedObjects]: the providers that the
    shared object [so] exports, or the error that ends the loading. *)
Definition exports (so : string) : result (gmap string (ctor Context X)) :=
  match pluginOpen so with
  | Err e => Err e
  | Ok p =>
    match Lookup _ _ p "Endpoints" with
    | Err e => Err e
    | Ok (SymOther T) => Err (ErrInvalidEndpointsField T)
    | Ok (SymEndpoints None) => Err ErrNilEndpoints
    | Ok (SymEndpoints (Some eps)) => Ok eps
    end
  end.

(** The registry after the maps of several shared objects have been
    recorded, the first of the list first. *)
Definition recordAll (maps : list (gmap string (ctor Context X)))
           (ctors : gmap string (ctor Context X)) : gmap string (ctor Context X) :=
  foldl (fun m eps => record Context X eps m) ctors maps.

End Load.

(** The reader of the list ended without an error, or at the end of its
    input. *)
Definition cleanEnd (err : option error) : Prop :=
  match err with Some e => isEOF e = true | None => True end.

End Load.

(** ** The mock plug-in: its endpoint and its [main] *)
Module MockPlugin.
Import Gocsi.

Section Plugin.

(** [context.Context], a listener, and the state of what the plug-in
    calls into: the log, the standard error stream, the network and the
    gRPC server. *)
Variables Context L X : Type.
Variable Println : string -> X -> X.
Variable Fprintf : string -> X -> X.
Variable Listen : string -> string -> X -> result L * X.

(** [grpc.NewServer], the registration of the three services and
    [grpcServer.Serve(li)], which returns when the serving ends. *)
Variable grpcServe : L -> X -> option error * (L * X).

(** [err.Error()], as [%v] prints an error. *)
Variable Error : error -> string.
Variable Getenv : string -> string.
Variable Background : Context.

Definition Init (ctx : Context) (x : X) : option error * X :=
  (None, Println "mock.Init" x).

Definition Serve (ctx : Context) (li : L) (x : X) : option error * (L * X) :=
  grpcServe li (Println "mock.Serve" x).

Definition Shutdown (ctx : Context) (x : X) : option error * X :=
  (None, Println "mock.Shutdown" x).

(** [main]: the exit status that [os.Exit] is called with, or [None] when
    [main] returns. *)
Definition main (x : X) : option nat * X :=
  let protoAddr := Getenv "CSI_ENDPOINT" in
  let protoAddr :=
      if String.eqb protoAddr "" then "tcp://127.0.0.1:8080"%string else protoAddr in
  match Mock.parseProtoAddr protoAddr with
  | (_, _, Some _) =>
    (Some 1%nat, Fprintf ("error: invalid endpoint: " +:+ protoAddr +:+ Fold.LF) x)
  | (proto, addr, None) =>
    match Listen proto addr x with
    | (Err err, x) =>
      (Some 1%nat, Fprintf ("error: failed to listen: " +:+ Error err +:+ Fold.LF) x)
    | (Ok l, x) =>
      let ctx := Background in
      match Init ctx x with
      | (Some err, x) =>
        (Some 1%nat,
         Fprintf ("error: endpoint init failed: " +:+ Error err +:+ Fold.LF) x)
      | (None, x) =>
        match Serve ctx l x with
        | (Some err, (_, x)) =>
          (Some 1%nat, Fprintf ("error: grpc failed: " +:+ Error err +:+ Fold.LF) x)
        | (None, (_, x)) => (None, x)
        end
      end
    end
  end.

End Plugin.

(** What a run of the program does, oldest first. *)
Inductive effect (L : Type) : Type :=
| DidListen (proto addr : string)
| DidLog (line : string)
| DidPrint (text : string)
| DidServe (li : L).
Arguments DidListen {L} proto addr.
Arguments DidLog {L} line.
Arguments DidPrint {L} text.
Arguments DidServe {L} li.

Section Traced.
(** The program with its effects written down: what [net.Listen] and the
    gRPC server answer is given. *)
Variable L : Type.
Variable listens : string -> string -> result L.
Variable serves : L -> option error.
Variable Error : error -> string.
Variable Getenv : string -> string.

Definition trace : Type := list (effect L).

Definition traced_main : option nat * trace :=
  main unit L trace
       (fun line tr => tr ++ [DidLog line])
       (fun text tr => tr ++ [DidPrint text])
       (fun proto addr tr => (listens proto addr, tr ++ [DidListen proto addr]))
       (fun li tr => (serves li, (li, tr ++ [DidServe li])))
       Error Getenv tt [].

(** The address [main] works with. *)
Definition endpointAddr : string :=
  if String.eqb (Getenv "CSI_ENDPOINT") "" then "tcp://127.0.0.1:8080"%string
  else Getenv "CSI_ENDPOINT".

End Traced.

Section AsProvider.
(** The plug-in as [gocsi] loads it: the listener is the piped connection. *)
Variables Context X : Type.
Variable Println : string -> X -> X.
Variable grpcServe : Pipe.pipeConn -> X -> option error * (Pipe.pipeConn * X).

Definition mockEndpoint : Endpoint Context X :=
  mkEndpoint Context X
    (fun ctx w => let '(r, x) := Init Context X Println ctx (snd w) in (r, (fst w, x)))
    (fun ctx w => Serve Context Pipe.pipeConn X Println grpcServe ctx (fst w) (snd w))
    (fun ctx w => let '(r, x) := Shutdown Context X Println ctx (snd w) in (r, (fst w, x))).

(** [var Endpoints = map[string]func() interface{}{"mock": ...}] *)
Definition Endpoints : gmap string (ctor Context X) :=
  {[ "mock"%string := fun _ => IsEndpoint mockEndpoint ]}.

End AsProvider.
End MockPlugin.

(** ** A valid endpoint address *)
(** The string [s] reads as the scheme [p], [://] and the rest [a]. *)
Definition validAddr (s p a : string) : Prop :=
  s = (p +:+ "://" +:+ a)%string /\ Fold.isScheme p = true /\
  a <> EmptyString /\ Fold.hasNewline a = false.

(** A world to run the plug-in and the loading in: lists of shared objects,
    a plug-in file that exports the providers of the mock plug-in, a log of
    lines for the outside state, and a network and a gRPC server that do
    what they are asked. *)
Module Demo.
Import Gocsi.

Definition csvList (l : list string) : string -> list string * option error :=
  fun _ => (l, None).

Definition Println (line : string) (x : list string) : list string := x ++ [line].

Definition grpcServe (li : Pipe.pipeConn) (x : list string)
  : option error * (Pipe.pipeConn * list string) := (None, (li, x)).

Definition mockOpen (so : string) : result (Plugin unit (list string)) :=
  Ok (mkPlugin unit (list string) (fun _ =>
        Ok (SymEndpoints (Some (MockPlugin.Endpoints unit (list string) Println grpcServe))))).

Definition listens (proto addr : string) : result unit := Ok tt.
Definition serves (li : unit) : option error := None.
Definition errorText (e : error) : string := "error"%string.
Definition badEndpoint : string -> string := fun _ => "http://127.0.0.1:8080"%string.

End Demo.


(** * Properties *)

(** ** The piped connection *)
Section PipeFacts.
Import Net.

Lemma Conn_eqb_eq a b : Conn_eqb a b = true <-> a = b.
Proof.
destruct a as [i x], b as [j y]; unfold Conn_eqb; simpl.
rewrite andb_true_iff, Nat.eqb_eq, Bool.eqb_true_iff.
split; [intros [-> ->]; reflexivity | intros H; injection H; auto].
Qed.

Lemma remove1_perm c l : In c l -> Permutation l (c :: Pipe.remove1 c l).
Proof.
induction l as [|d l IH]; simpl; [tauto|].
intros H. destruct (Conn_eqb c d) eqn:E.
- apply Conn_eqb_eq in E. subst d. reflexivity.
- destruct H as [->|H].
  + assert (Conn_eqb c c = true) by (apply Conn_eqb_eq; reflexivity). congruence.
  + rewrite (IH H) at 1. apply perm_swap.
Qed.

Lemma step_open p e p' :
Pipe.step p e p' -> Pipe.isClose e = false ->
Pipe.closed p = false ->
Pipe.closed p' = false /\ Pipe.panicked p' = false.
Proof.
intros H He Hc. destruct H as [p raddr timeout Hp|p c Hp Hin|p ret err p' Hp Ha|p Hp];
  simpl in *; try discriminate.
- auto.
- unfold Pipe.send. rewrite Hc. simpl. auto.
- unfold Pipe.Accept in Ha. destruct (Pipe.sendq p); [rewrite Hc in Ha; discriminate|].
  injection Ha as _ _ <-. simpl. auto.
Qed.

Lemma step_balance p e p' :
Pipe.step p e p' -> Pipe.isClose e = false -> Pipe.closed p = false ->
Permutation (Pipe.accepted [e] ++ Pipe.sendq p' ++ Pipe.started p')
            (Pipe.sendq p ++ Pipe.started p ++ map peer (Pipe.dialed [e])).
Proof.
intros H He Hc. destruct H as [p raddr timeout Hp|p c Hp Hin|p ret err p' Hp Ha|p Hp];
  simpl in *; try discriminate.
- reflexivity.
- unfold Pipe.send. rewrite Hc. simpl. rewrite app_nil_r.
  rewrite <- app_assoc. apply Permutation_app_head. simpl.
  symmetry. apply remove1_perm, Hin.
- unfold Pipe.Accept in Ha. destruct (Pipe.sendq p) as [|c q] eqn:Eq; [rewrite Hc in Ha; discriminate|].
  injection Ha as <- <- <-. simpl. rewrite app_nil_r. reflexivity.
Qed.

Lemma run_balance p tr p' :
Pipe.run p tr p' -> Pipe.quiet tr = true -> Pipe.closed p = false ->
Pipe.closed p' = false /\
Permutation (Pipe.accepted tr ++ Pipe.sendq p' ++ Pipe.started p')
            (Pipe.sendq p ++ Pipe.started p ++ map peer (Pipe.dialed tr)).
Proof.
induction 1 as [p|p e p1 tr p2 Hs Hr IH]; intros Hq Hc.
- split; [assumption|]. simpl. rewrite app_nil_r. reflexivity.
- simpl in Hq. apply andb_true_iff in Hq as [He Hq]. apply negb_true_iff in He.
  destruct (step_open _ _ _ Hs He Hc) as [Hc1 _].
  destruct (IH Hq Hc1) as [Hc2 HP]. split; [assumption|].
  pose proof (step_balance _ _ _ Hs He Hc) as HS.
  change (e :: tr) with ([e] ++ tr).
  assert (Ha : Pipe.accepted ([e] ++ tr) = Pipe.accepted [e] ++ Pipe.accepted tr).
  { destruct e as [? ? [?|] ?| |[?|] ?|]; reflexivity. }
  assert (Hd : Pipe.dialed ([e] ++ tr) = Pipe.dialed [e] ++ Pipe.dialed tr).
  { destruct e as [? ? [?|] ?| |[?|] ?|]; reflexivity. }
  rewrite Ha, Hd, map_app, <- app_assoc.
  rewrite HP.
  rewrite !app_assoc. apply Permutation_app_tail.
  rewrite <- !app_assoc. exact HS.
Qed.





Lemma step_alive p e p' : Pipe.step p e p' -> Pipe.panicked p = false.
Proof. destruct 1; assumption. Qed.

(** The number of pipes counts the dials, and the k-th dial returns the
  second end of pipe k. *)
Lemma run_dialed p tr p' :
Pipe.run p tr p' ->
Pipe.dialed tr = map (fun k => mkConn k false) (seq (Pipe.pipes p) (length (Pipe.dialed tr)))
/\ Pipe.pipes p' = (Pipe.pipes p + length (Pipe.dialed tr))%nat.
Proof.
induction 1 as [p|p e p1 tr p2 Hs Hr [IH1 IH2]]; simpl.
- split; [reflexivity|lia].
- destruct Hs as [p raddr timeout Hp|p c Hp Hin|p ret err p' Hp Ha|p Hp]; simpl in *.
  + split; [f_equal; exact IH1|lia].
  + unfold Pipe.send in *. destruct (Pipe.closed p); simpl in *; auto.
  + unfold Pipe.Accept in Ha. 
    destruct (Pipe.sendq p); [destruct (Pipe.closed p); [|discriminate]|];
      injection Ha as <- <- <-; simpl in *; auto.
  + auto.
Qed.



Lemma step_settled p e p' : Pipe.step p e p' -> Pipe.settled p -> Pipe.settled p'.
Proof.
unfold Pipe.settled.
intros H I. destruct H as [p raddr timeout Hp|p c Hp Hin|p ret err p' Hp Ha|p Hp]; simpl.
- exact I.
- unfold Pipe.send. destruct (Pipe.closed p) eqn:E; simpl; [auto|discriminate].
- unfold Pipe.Accept in Ha. destruct (Pipe.sendq p) as [|c q] eqn:E.
  + destruct (Pipe.closed p); [|discriminate]. injection Ha as <- <- <-. auto.
  + injection Ha as <- <- <-. simpl. intros Hc. specialize (I Hc). congruence.
- reflexivity.
Qed.

Lemma step_closed p e p' :
Pipe.step p e p' -> Pipe.closed p = true \/ Pipe.isClose e = true -> Pipe.closed p' = true.
Proof.
intros H. destruct H as [p raddr timeout Hp|p c Hp Hin|p ret err p' Hp Ha|p Hp]; simpl.
- intros [?|?]; [assumption|discriminate].
- unfold Pipe.send. intros [->|?]; [reflexivity|discriminate].
- unfold Pipe.Accept in Ha. 
  destruct (Pipe.sendq p); [destruct (Pipe.closed p) eqn:E; [|discriminate]|];
    injection Ha as <- <- <-; simpl; intros [?|?]; auto; discriminate.
- reflexivity.
Qed.

Lemma run_settled p tr p' : Pipe.run p tr p' -> Pipe.settled p -> Pipe.settled p'.
Proof. induction 1; eauto using step_settled. Qed.

Lemma run_closed p tr p' :
Pipe.run p tr p' -> Pipe.closed p = true \/ In Pipe.EvClose tr -> Pipe.closed p' = true.
Proof.
induction 1 as [p|p e p1 tr p2 Hs Hr IH].
- intros [?|[]]. assumption.
- intros H. apply IH. destruct H as [H|[H|H]].
  + left. eapply step_closed; eauto.
  + left. eapply step_closed; eauto. right. subst e. reflexivity.
  + right. exact H.
Qed.

Lemma quiet_not_closed tr : Pipe.quiet tr = true \/ In Pipe.EvClose tr.
Proof.
induction tr as [|e tr [IH|IH]]; simpl; auto.
destruct e; simpl; auto.
Qed.

Lemma run_closed_silent p tr p' :
Pipe.run p tr p' -> Pipe.closed p = true -> Pipe.settled p -> Pipe.accepted tr = [].
Proof.
induction 1 as [p|p e p1 tr p2 Hs Hr IH]; intros Hc I; [reflexivity|].
assert (H1 : Pipe.closed p1 = true) by (eapply step_closed; eauto).
assert (I1 : Pipe.settled p1) by (eapply step_settled; eauto).
specialize (IH H1 I1).
destruct Hs as [p raddr timeout Hp|p c Hp Hin|p ret err p' Hp Ha|p Hp]; simpl; auto.
unfold Pipe.Accept in Ha. rewrite (I Hc), Hc in Ha. injection Ha as <- <- <-. exact IH.
Qed.

Lemma settled_new name : Pipe.settled (Pipe.newPipeConn name).
Proof. intros H. reflexivity. Qed.

Lemma peer_peer c : peer (peer c) = c.
Proof. destruct c as [k b]. unfold peer. simpl. rewrite negb_involutive. reflexivity. Qed.

Lemma peer_inj a b : peer a = peer b -> a = b.
Proof. intros H. rewrite <- (peer_peer a), H. apply peer_peer. Qed.


Lemma run_quiet_alive p tr p' :
Pipe.run p tr p' -> Pipe.quiet tr = true -> Pipe.closed p = false ->
Pipe.panicked p = false -> Pipe.panicked p' = false.
Proof.
induction 1 as [p|p e p1 tr p2 Hs Hr IH]; intros Hq Hc Hp; [assumption|].
simpl in Hq. apply andb_true_iff in Hq as [He Hq]. apply negb_true_iff in He.
destruct (step_open _ _ _ Hs He Hc) as [? ?]. auto.
Qed.



(** C6.  Once the bridge has been closed, [Accept] returns no stream and
    no error and leaves the bridge as it is; it does not wait, and while
    the process runs the call is there to be made. *)
Theorem accept_after_close (name : string) (tr : list Pipe.event) (p : Pipe.pipeConn) :
  Pipe.run (Pipe.newPipeConn name) tr p -> In Pipe.EvClose tr ->
  Pipe.Accept p = Some ((None, None), p) /\
  (Pipe.panicked p = false -> Pipe.step p (Pipe.EvAccept None None) p).
Proof.
  intros Hr Hc.
  assert (C : Pipe.closed p = true) by (eapply run_closed; eauto).
  assert (I : Pipe.settled p) by (eapply run_settled; eauto using settled_new).
  assert (A : Pipe.Accept p = Some ((None, None), p)).
  { unfold Pipe.Accept. rewrite (I C), C. reflexivity. }
  split; [exact A|]. intros Hp. apply Pipe.StepAccept; assumption.
Qed.

Lemma accept_after_close_witness :
Pipe.Accept (snd (Pipe.Close (snd (Pipe.Dial "mock" 5 (Pipe.newPipeConn "mock")))))
= Some ((None, None),
        snd (Pipe.Close (snd (Pipe.Dial "mock" 5 (Pipe.newPipeConn "mock"))))).
Proof.
apply (accept_after_close "mock"
         [Pipe.EvDial "mock" 5 (Some (mkConn 0 false)) None; Pipe.EvClose]).
- eapply Pipe.RunCons; [apply (Pipe.StepDial (Pipe.newPipeConn "mock") "mock" 5); reflexivity|].
  eapply Pipe.RunCons; [apply Pipe.StepClose; reflexivity|]. apply Pipe.RunNil.
- right. left. reflexivity.
Defined.

(** C5.  Once the bridge has been closed, and while the process runs,
    [Dial] returns one end of a pipe made for this call and no error, not
    the error of a closed transport; the call starts its goroutine all the
    same, the send of that goroutine is on the closed channel and panics,
    which ends the process; and in no run after the call does an accept
    return a stream, so the other end of the pipe reaches nobody. *)
Theorem dial_after_close (name : string) (tr : list Pipe.event) (p : Pipe.pipeConn)
      (raddr : string) (timeout : Z) :
Pipe.run (Pipe.newPipeConn name) tr p -> In Pipe.EvClose tr -> Pipe.panicked p = false ->
fst (Pipe.Dial raddr timeout p) = (Some (mkConn (Pipe.pipes p) false), None) /\
~ In (mkConn (Pipe.pipes p) false) (Pipe.dialed tr) /\
Pipe.step p (Pipe.EvDial raddr timeout (Some (mkConn (Pipe.pipes p) false)) None)
          (snd (Pipe.Dial raddr timeout p)) /\
Pipe.step (snd (Pipe.Dial raddr timeout p)) (Pipe.EvSend (mkConn (Pipe.pipes p) true))
          (Pipe.send (mkConn (Pipe.pipes p) true) (snd (Pipe.Dial raddr timeout p))) /\
Pipe.panicked (Pipe.send (mkConn (Pipe.pipes p) true) (snd (Pipe.Dial raddr timeout p)))
= true /\
(forall tr' p', Pipe.run (snd (Pipe.Dial raddr timeout p)) tr' p' -> Pipe.accepted tr' = []).
Proof.
intros Hr Hc Hp.
assert (C : Pipe.closed p = true) by (eapply run_closed; eauto).
assert (I : Pipe.settled p) by (eapply run_settled; eauto using settled_new).
destruct (run_dialed _ _ _ Hr) as [Hd Hn]. simpl in Hd, Hn.
split; [reflexivity|]. split; [|split; [|split; [|split]]].
- rewrite Hd, Hn. intros H. apply in_map_iff in H as (k & E & Hk).
  injection E as E. apply in_seq in Hk. lia.
- apply (Pipe.StepDial p raddr timeout Hp).
- apply Pipe.StepSend; [exact Hp|]. simpl. apply in_or_app. right. left. reflexivity.
- unfold Pipe.send. simpl. rewrite C. reflexivity.
- intros tr' p' Hr'. eapply run_closed_silent; eauto.
Qed.

Lemma dial_after_close_witness :
fst (Pipe.Dial "mock" 1000 (snd (Pipe.Close (Pipe.newPipeConn "mock"))))
= (Some (mkConn 0 false), None) /\
Pipe.panicked
  (Pipe.send (mkConn 0 true)
             (snd (Pipe.Dial "mock" 1000 (snd (Pipe.Close (Pipe.newPipeConn "mock"))))))
= true.
Proof.
destruct (dial_after_close "mock" [Pipe.EvClose]
                           (snd (Pipe.Close (Pipe.newPipeConn "mock"))) "mock" 1000)
  as (H1 & _ & _ & _ & H5 & _).
- eapply Pipe.RunCons; [apply Pipe.StepClose; reflexivity|]. apply Pipe.RunNil.
- left. reflexivity.
- reflexivity.
- split; [exact H1|exact H5].
Defined.

(** C10.  On a bridge that is not closed the result of [Dial] and the state
    it leaves are the same for every target name and every timeout: the
    second end of a pipe that no earlier call returned, and no error; the
    first end, which no goroutine holds and nobody has accepted, joins the
    goroutines that have still to send, and it stays there whatever the
    timeout. *)
Theorem dial_ignores_arguments (name : string) (tr : list Pipe.event) (p : Pipe.pipeConn)
      (raddr raddr' : string) (timeout timeout' : Z) :
Pipe.run (Pipe.newPipeConn name) tr p -> Pipe.closed p = false ->
Pipe.Dial raddr timeout p = Pipe.Dial raddr' timeout' p /\
fst (Pipe.Dial raddr timeout p) = (Some (mkConn (Pipe.pipes p) false), None) /\
~ In (mkConn (Pipe.pipes p) false) (Pipe.dialed tr) /\
~ In (mkConn (Pipe.pipes p) true) (Pipe.accepted tr ++ Pipe.sendq p ++ Pipe.started p) /\
Pipe.started (snd (Pipe.Dial raddr timeout p))
  = Pipe.started p ++ [mkConn (Pipe.pipes p) true] /\
Pipe.sendq (snd (Pipe.Dial raddr timeout p)) = Pipe.sendq p.
Proof.
intros Hr Hc.
destruct (run_dialed _ _ _ Hr) as [Hd Hn]. simpl in Hd, Hn.
assert (Hq : Pipe.quiet tr = true).
{ destruct (quiet_not_closed tr) as [?|H]; [assumption|].
  assert (Pipe.closed p = true) by (eapply run_closed; eauto). congruence. }
destruct (run_balance _ _ _ Hr Hq eq_refl) as [_ HP]. simpl in HP.
repeat split.
- rewrite Hd, Hn. intros H. apply in_map_iff in H as (k & E & Hk).
  injection E as E. apply in_seq in Hk. lia.
- intros H. eapply Permutation_in in H; [|exact HP].
  rewrite Hd, map_map, Hn in H. apply in_map_iff in H as (k & E & Hk).
  injection E as E. apply in_seq in Hk. lia.
Qed.

Lemma dial_ignores_arguments_witness :
Pipe.Dial "mock" 1 (Pipe.newPipeConn "mock") = Pipe.Dial "other" 0 (Pipe.newPipeConn "mock").
Proof.
apply (dial_ignores_arguments "mock" [] (Pipe.newPipeConn "mock") "mock" "other" 1 0).
- apply Pipe.RunNil.
- reflexivity.
Defined.

End PipeFacts.

(** ** The registry of providers *)
Section RegistryFacts.
Import Gocsi.
Variables Context X : Type.
Variable Getenv : string -> string.
Variable csvRead : string -> list string * option error.
Variable pluginOpen : string -> result (Plugin Context X).

Local Abbreviation Init := (Init Context X Getenv csvRead pluginOpen).
Local Abbreviation loadSharedObjects := (loadSharedObjects Context X Getenv csvRead pluginOpen).
Local Abbreviation pkg := (pkg Context X).
Local Abbreviation ctor := (ctor Context X).
Local Abbreviation InitTimes := (InitTimes Context X Getenv csvRead pluginOpen).

Lemma record_union (eps ctors : gmap string ctor) :
  record Context X eps ctors = eps ∪ ctors.
Proof.
  unfold record.
  apply (map_fold_weak_ind (fun r m => r = m ∪ ctors)).
  - rewrite (left_id_L ∅ (∪)). reflexivity.
  - intros k v m r Hk ->. rewrite insert_union_l. reflexivity.
Qed.

Lemma Init_done ctx (s : pkg) :
  initOnce _ _ s = true -> Init ctx s = (None, s).
Proof. intros H. unfold Gocsi.Init. rewrite H. reflexivity. Qed.

Lemma Init_sets_once ctx (s : pkg) : initOnce _ _ (snd (Init ctx s)) = true.
Proof.
  unfold Gocsi.Init. destruct (initOnce _ _ s) eqn:E; [exact E|].
  destruct (loadSharedObjects ctx s). reflexivity.
Qed.

Lemma loadSharedObjects_loads ctx (s : pkg) :
  loads _ _ (snd (loadSharedObjects ctx s)) = S (loads _ _ s).
Proof.
  unfold Gocsi.loadSharedObjects. destruct (csvRead _) as [sos err].
  destruct (match err with Some e => negb (isEOF e) | None => false end); [reflexivity|].
  destruct (length sos =? 0)%nat; [reflexivity|]. simpl.
  destruct (loadEach _ _ _ _ _). reflexivity.
Qed.

(** C9.  When [CSI_PLUGINS] is empty or unset, so that the reader of the
    list meets the end of its input at once, the loading reports no error
    and leaves the registry as it was, and so does [Init]. *)
Theorem Init_empty_list ctx (s : pkg) :
  Getenv "CSI_PLUGINS" = EmptyString ->
  csvRead EmptyString = ([], Some EOF) ->
  fst (loadSharedObjects ctx s) = None /\
  endpointCtors _ _ (snd (loadSharedObjects ctx s)) = endpointCtors _ _ s /\
  fst (Init ctx s) = None /\
  endpointCtors _ _ (snd (Init ctx s)) = endpointCtors _ _ s.
Proof.
  intros Henv Hcsv.
  assert (L : loadSharedObjects ctx s
              = (None, mkPkg (initOnce _ _ s) (endpointCtors _ _ s) (S (loads _ _ s)))).
  { unfold Gocsi.loadSharedObjects. rewrite Henv, Hcsv. reflexivity. }
  rewrite L. simpl. repeat split.
  - unfold Gocsi.Init. destruct (initOnce _ _ s); [reflexivity|]. rewrite L. reflexivity.
  - unfold Gocsi.Init. destruct (initOnce _ _ s); [reflexivity|]. rewrite L. reflexivity.
Qed.

Lemma InitTimes_done n ctx (s : pkg) :
  initOnce _ _ s = true -> InitTimes n ctx s = (repeat None n, s).
Proof.
  induction n as [|n IH]; intros H; simpl; [reflexivity|].
  rewrite (Init_done ctx s H), (IH H). reflexivity.
Qed.

(** X10.  However often [Init] is called, the loading runs once: the first
    call returns its result and every later call returns no error. *)
Lemma Init_loads_once n ctx (s : pkg) :
  initOnce _ _ s = false ->
  InitTimes (S n) ctx s
  = (fst (loadSharedObjects ctx s) :: repeat None n,
     mkPkg true (endpointCtors _ _ (snd (loadSharedObjects ctx s)))
           (S (loads _ _ s))).
Proof.
  intros H. simpl.
  pose proof (loadSharedObjects_loads ctx s) as HL.
  unfold Gocsi.Init. rewrite H. destruct (loadSharedObjects ctx s) as [r s1]. simpl in *.
  rewrite InitTimes_done by reflexivity. rewrite HL. reflexivity.
Qed.

End RegistryFacts.

Lemma Init_empty_list_witness :
  fst (Gocsi.Init unit nat Gocsi.Sample.unset Gocsi.Sample.csvRead
                  Gocsi.Sample.pluginOpen tt Gocsi.Sample.fresh) = None.
Proof.
  apply (Init_empty_list unit nat Gocsi.Sample.unset Gocsi.Sample.csvRead
                         Gocsi.Sample.pluginOpen tt Gocsi.Sample.fresh);
    reflexivity.
Defined.

(** C3.  With a plug-in file that cannot be opened, the first [Init] returns
    the error of the loading and the second [Init] returns no error, the
    loading having run once: a later call does not see the failure. *)
Theorem Init_forgets_failure :
  let Init := Gocsi.Init unit nat Gocsi.Sample.noSuchFile
                         Gocsi.Sample.csvRead Gocsi.Sample.pluginOpen in
  fst (Init tt Gocsi.Sample.fresh) = Some (External "plugin.Open: no such file") /\
  fst (Init tt (snd (Init tt Gocsi.Sample.fresh))) = None /\
  Gocsi.loads _ _ (snd (Init tt (snd (Init tt Gocsi.Sample.fresh)))) = 1%nat.
Proof. vm_compute. auto. Qed.

(** ** The lookup of a provider *)
Section LookupFacts.
Import Gocsi.
Variables Context X : Type.
Variable Getenv : string -> string.
Variable csvRead : string -> list string * option error.
Variable pluginOpen : string -> result (Plugin Context X).
Variable EqualFold : string -> string -> bool.
Variable rangeOrder : gmap string (ctor Context X) -> list (string * ctor Context X).

Local Abbreviation Init := (Init Context X Getenv csvRead pluginOpen).
Local Abbreviation New := (New Context X Getenv csvRead pluginOpen EqualFold rangeOrder).
Local Abbreviation lookupCtor := (lookupCtor Context X EqualFold).

Local Abbreviation construct := (construct Context X).

Lemma lookupCtor_none name entries :
  (forall k v, In (k, v) entries -> EqualFold k name = false) ->
  lookupCtor name entries = Err errInvalidEndpointProvider.
Proof.
  induction entries as [|[k v] rest IH]; intros H; simpl; [reflexivity|].
  rewrite (H k v) by (left; reflexivity).
  apply IH. intros k' v' Hin. apply (H k' v'). right. exact Hin.
Qed.

Lemma lookupCtor_only name entries k v :
  In (k, v) entries -> EqualFold k name = true ->
  (forall k' v', In (k', v') entries -> EqualFold k' name = true -> k' = k /\ v' = v) ->
  lookupCtor name entries = construct k v.
Proof.
  induction entries as [|[k0 v0] rest IH]; intros Hin Hk Hu; simpl; [destruct Hin|].
  destruct (EqualFold k0 name) eqn:E.
  - destruct (Hu k0 v0) as [-> ->]; [left; reflexivity|exact E|]. reflexivity.
  - destruct Hin as [Heq|Hin]; [injection Heq as -> ->; congruence|].
    apply IH; [exact Hin|exact Hk|].
    intros k' v' Hin' HE. apply Hu; [right; exact Hin'|exact HE].
Qed.

(** C7 as amended.  When [Init] returns no error and no two registered names
    are equal but for the case of their letters, then in whatever order the
    registry is gone through: a request that equals a registered name but
    for case gets what the constructor registered under that name makes,
    the same for every such request; and a request that equals no
    registered name but for case fails with [errInvalidEndpointProvider]. *)
Theorem New_case_insensitive ctx (s s' : pkg Context X) :
  (forall a b c, EqualFold a c = true -> EqualFold b c = true -> EqualFold a b = true) ->
  (forall m, rangeOrder m ≡ₚ map_to_list m) ->
  Init ctx s = (None, s') ->
  (forall k1 k2, is_Some (endpointCtors _ _ s' !! k1) -> is_Some (endpointCtors _ _ s' !! k2) ->
                 EqualFold k1 k2 = true -> k1 = k2) ->
  (forall k v name,
      endpointCtors _ _ s' !! k = Some v -> EqualFold k name = true ->
      New ctx name s = (construct k v, s')) /\
  (forall name,
      (forall k, is_Some (endpointCtors _ _ s' !! k) -> EqualFold k name = false) ->
      New ctx name s = (Err errInvalidEndpointProvider, s')).
Proof.
  intros Heuc Hperm HI Huniq.
  assert (Hin : forall k v, In (k, v) (rangeOrder (endpointCtors _ _ s'))
                            <-> endpointCtors _ _ s' !! k = Some v).
  { intros k v. rewrite <- list_elem_of_In, Hperm. apply elem_of_map_to_list. }
  split.
  - intros k v name Hk HE. unfold Gocsi.New. rewrite HI.
    f_equal. apply lookupCtor_only; [apply Hin; exact Hk|exact HE|].
    intros k' v' Hin' HE'. apply Hin in Hin'.
    assert (k' = k) as ->.
    { apply Huniq; eauto. }
    split; [reflexivity|congruence].
  - intros name Hno. unfold Gocsi.New. rewrite HI.
    f_equal. apply lookupCtor_none. intros k v Hkv. apply Hin in Hkv. apply Hno. eauto.
Qed.

End LookupFacts.

Lemma toLower_eqb_euclid a b c :
  Ascii.eqb (Gocsi.toLower a) (Gocsi.toLower c) = true ->
  Ascii.eqb (Gocsi.toLower b) (Gocsi.toLower c) = true ->
  Ascii.eqb (Gocsi.toLower a) (Gocsi.toLower b) = true.
Proof.
  rewrite !Ascii.eqb_eq. congruence.
Qed.

Lemma EqualFoldASCII_euclid a : forall b c,
  Gocsi.EqualFoldASCII a c = true -> Gocsi.EqualFoldASCII b c = true ->
  Gocsi.EqualFoldASCII a b = true.
Proof.
  induction a as [|x a IH]; intros [|y b] [|z c]; simpl; try discriminate; auto.
  rewrite !andb_true_iff. intros [H1 H2] [H3 H4]. split.
  - eapply toLower_eqb_euclid; eauto.
  - eapply IH; eauto.
Qed.

Section SampleRegistry.
Import Gocsi Gocsi.Sample.

Lemma Init_oneProvider :
  Init unit nat oneProvider csvRead pluginOpen tt fresh
  = (None, mkPkg true {[ "mock"%string := mockCtor ]} 1).
Proof. vm_compute. reflexivity. Qed.

Lemma Init_twoProviders :
  Init unit nat twoProviders csvRead pluginOpen tt fresh
  = (None, mkPkg true (<[ "MOCK"%string := MOCKCtor ]> {[ "mock"%string := mockCtor ]}) 1).
Proof. vm_compute. reflexivity. Qed.

Lemma twoProviders_list :
  map_to_list (<[ "MOCK"%string := MOCKCtor ]> ({[ "mock"%string := mockCtor ]} : gmap string (ctor unit nat)))
  ≡ₚ upperFirst ∅.
Proof.
  rewrite map_to_list_insert by (vm_compute; reflexivity).
  rewrite map_to_list_singleton. reflexivity.
Qed.

(** C7, counterexample.  With the providers [mock] and [MOCK] registered, the
    request [mock] gets the one or the other with the order in which the
    registry is gone through; and with a plug-in file that cannot be opened
    a request that matches no provider fails with the error of the
    loading, not with [errInvalidEndpointProvider]. *)
Lemma New_case_collision :
  let m := endpointCtors _ _ (snd (Init unit nat twoProviders csvRead pluginOpen tt fresh)) in
  lowerFirst m ≡ₚ map_to_list m /\ upperFirst m ≡ₚ map_to_list m /\
  fst (New unit nat twoProviders csvRead pluginOpen EqualFoldASCII lowerFirst tt "mock" fresh)
  = Ok (mkendpoint "mock" quietEndpoint (Pipe.newPipeConn "mock")) /\
  fst (New unit nat twoProviders csvRead pluginOpen EqualFoldASCII upperFirst tt "mock" fresh)
  = Ok (mkendpoint "MOCK" stuckEndpoint (Pipe.newPipeConn "MOCK")) /\
  (forall k, is_Some ((∅ : gmap string (ctor unit nat)) !! k) ->
             EqualFoldASCII k "doesnotexist" = false) /\
  fst (New unit nat noSuchFile csvRead pluginOpen EqualFoldASCII lowerFirst tt
           "doesnotexist" fresh)
  = Err (External "plugin.Open: no such file").
Proof.
  rewrite Init_twoProviders. simpl.
  split; [|split].
  - rewrite twoProviders_list. apply perm_swap.
  - rewrite twoProviders_list. reflexivity.
  - repeat split; try (vm_compute; reflexivity).
    intros k [v H]. rewrite lookup_empty in H. discriminate.
Qed.

Lemma New_case_insensitive_witness :
  fst (New unit nat oneProvider csvRead pluginOpen EqualFoldASCII map_to_list tt "MOCK" fresh)
  = fst (New unit nat oneProvider csvRead pluginOpen EqualFoldASCII map_to_list tt "mock" fresh)
  /\ fst (New unit nat oneProvider csvRead pluginOpen EqualFoldASCII map_to_list tt
             "doesnotexist" fresh)
     = Err errInvalidEndpointProvider.
Proof.
  destruct (New_case_insensitive unit nat oneProvider csvRead pluginOpen EqualFoldASCII
              map_to_list tt fresh (mkPkg true {[ "mock"%string := mockCtor ]} 1))
    as [Hyes Hno].
  - intros a b c. apply EqualFoldASCII_euclid.
  - intros m. reflexivity.
  - apply Init_oneProvider.
  - simpl. intros k1 k2 [v1 H1] [v2 H2] _.
    apply lookup_singleton_Some in H1 as [<- _].
    apply lookup_singleton_Some in H2 as [<- _]. reflexivity.
  - rewrite (Hyes "mock"%string mockCtor "MOCK"%string);
      [|apply lookup_singleton_eq|reflexivity].
    rewrite (Hyes "mock"%string mockCtor "mock"%string);
      [|apply lookup_singleton_eq|reflexivity].
    split; [reflexivity|].
    rewrite (Hno "doesnotexist"%string); [reflexivity|].
    simpl. intros k [v H]. apply lookup_singleton_Some in H as [<- _]. reflexivity.
Defined.

End SampleRegistry.

(** ** The forwarding endpoint *)
Section EndpointFacts.
Import Gocsi.
Variables Context request response ClientConn X : Type.
Variable DialContext :
  Context -> string -> dialer -> world X -> result ClientConn * world X.
Variable Invoke :
  ClientConn -> method -> Context -> request -> world X ->
  (option response * option error) * world X.

Local Abbreviation serve := (serve Context request response ClientConn X DialContext Invoke).
Local Abbreviation dial := (dial Context ClientConn X DialContext).
Local Abbreviation dialGroup := (dialGroup Context ClientConn X DialContext).
Local Abbreviation call := (call Context request response ClientConn X Invoke).

Lemma dialGroup_dial g ctx e x :
  dialGroup g ctx e x
  = match dial ctx e x with
    | (Err err, s) => (Err err, s)
    | (Ok c, s) => (Ok (NewClient ClientConn g c), s)
    end.
Proof. destruct g; reflexivity. Qed.

(** C1.  Every forwarding method of the endpoint dials through the piped
    connection for a client of the group that owns the method; when the
    dial fails it returns no response and the error of the dial; otherwise
    it calls the remote method of its own name once, with the request as
    it got it, and returns what that call returns, in the world that call
    leaves. *)
Theorem forwarding (m : method) (ctx : Context) (req : request)
        (e : endpoint Context X) (x : X) :
  dial ctx e x = onWorld Context X (DialContext ctx (name _ _ e) Pipe.Dial) e x /\
  serve m ctx req e x
  = match dialGroup (groupOf m) ctx e x with
    | (Err err, s) => ((None, Some err), s)
    | (Ok c, (e', x')) => onWorld Context X (call c m ctx req) e' x'
    end /\
  (forall err s, dial ctx e x = (Err err, s) ->
                 serve m ctx req e x = ((None, Some err), s)) /\
  (forall c e' x', dial ctx e x = (Ok c, (e', x')) ->
                   serve m ctx req e x = onWorld Context X (Invoke c m ctx req) e' x').
Proof.
  split; [reflexivity|]. split; [destruct m; reflexivity|]. split.
  - intros err s H. 
    destruct m; simpl;
      unfold CreateVolume, DeleteVolume, ControllerPublishVolume,
        ControllerUnpublishVolume, ValidateVolumeCapabilities, ListVolumes,
        GetCapacity, ControllerGetCapabilities, GetSupportedVersions, GetPluginInfo,
        NodePublishVolume, NodeUnpublishVolume, GetNodeID, ProbeNode,
        NodeGetCapabilities, dialController, dialIdentity, dialNode;
      rewrite H; reflexivity.
  - intros c e' x' H.
    destruct m; simpl;
      unfold CreateVolume, DeleteVolume, ControllerPublishVolume,
        ControllerUnpublishVolume, ValidateVolumeCapabilities, ListVolumes,
        GetCapacity, ControllerGetCapabilities, GetSupportedVersions, GetPluginInfo,
        NodePublishVolume, NodeUnpublishVolume, GetNodeID, ProbeNode,
        NodeGetCapabilities, dialController, dialIdentity, dialNode;
      rewrite H; reflexivity.
Qed.

(** The endpoint's [Shutdown] runs first, on the connection as it is; the
    connection it leaves is then closed; the result is no error. *)
Lemma Shutdown_order (ctx : Context) (e : endpoint Context X) (x : X) :
  endpoint_Shutdown Context X ctx e x
  = (None,
     (mkendpoint (name _ _ e) (endp _ _ e)
                 (snd (Pipe.Close (fst (snd (ep_Shutdown _ _ (endp _ _ e) ctx (conn _ _ e, x)))))),
      snd (snd (ep_Shutdown _ _ (endp _ _ e) ctx (conn _ _ e, x))))).
Proof.
  unfold endpoint_Shutdown, onWorld.
  destruct (ep_Shutdown _ _ (endp _ _ e) ctx (conn _ _ e, x)) as [r [c x1]]. reflexivity.
Qed.

End EndpointFacts.

Section SampleEndpoint.
Import Gocsi Gocsi.Sample.

Lemma forwarding_witness :
  serve unit string string string nat DialContext Invoke MListVolumes tt "1"
        (mkendpoint "" quietEndpoint (Pipe.newPipeConn "")) 0%nat
  = ((None, Some (External "grpc: empty target")),
     (mkendpoint "" quietEndpoint (Pipe.newPipeConn ""), 0%nat)) /\
  fst (serve unit string string string nat DialContext Invoke MListVolumes tt "1"
        (mkendpoint "mock" quietEndpoint (Pipe.newPipeConn "mock")) 0%nat)
  = (Some "1"%string, None).
Proof.
  split.
  - apply (forwarding unit string string string nat DialContext Invoke MListVolumes tt
             "1"%string (mkendpoint "" quietEndpoint (Pipe.newPipeConn "")) 0%nat).
    reflexivity.
  - erewrite (proj2 (proj2 (proj2
             (forwarding unit string string string nat DialContext Invoke MListVolumes tt
                "1"%string (mkendpoint "mock" quietEndpoint (Pipe.newPipeConn "mock")) 0%nat))));
      reflexivity.
Defined.

(** C4.  For an endpoint whose [Shutdown] returns an error, [Shutdown] of the
    forwarding endpoint closes the piped connection and returns no error:
    the error is lost. *)
Theorem Shutdown_drops_error :
  let e := mkendpoint "MOCK" stuckEndpoint (Pipe.newPipeConn "MOCK") in
  fst (ep_Shutdown _ _ (endp _ _ e) tt (conn _ _ e, 0%nat)) = Some (External "shutdown failed") /\
  fst (endpoint_Shutdown unit nat tt e 0%nat) = None /\
  Pipe.closed (conn _ _ (fst (snd (endpoint_Shutdown unit nat tt e 0%nat)))) = true.
Proof. vm_compute. auto. Qed.

End SampleEndpoint.

(** ** The address parser *)
Section AddressFacts.
Local Open Scope N_scope.
(** [lia] with the remainders by the constants of the decoder. *)
Ltac Zify.zify_post_hook ::= Z.to_euclidean_division_equations.

(** A case for every test of a conditional. *)
Ltac split_tests :=
  repeat match goal with
         | H : context [if ?b then _ else _] |- _ =>
           let E := fresh "E" in destruct b eqn:E
         | |- context [if ?b then _ else _] =>
           let E := fresh "E" in destruct b eqn:E
         end.

(** The outcome of the boolean tests, as propositions. *)
Ltac to_Prop :=
  repeat match goal with
         | H : (_ || _)%bool = true |- _ => apply orb_true_iff in H
         | H : (_ || _)%bool = false |- _ => apply orb_false_iff in H; destruct H
         | H : (_ && _)%bool = true |- _ => apply andb_true_iff in H; destruct H
         | H : (_ && _)%bool = false |- _ => apply andb_false_iff in H
         | H : negb _ = true |- _ => apply negb_true_iff in H
         | H : negb _ = false |- _ => apply negb_false_iff in H
         | H : (_ <? _) = true |- _ => apply N.ltb_lt in H
         | H : (_ <? _) = false |- _ => apply N.ltb_ge in H
         | H : (_ <=? _) = true |- _ => apply N.leb_le in H
         | H : (_ <=? _) = false |- _ => apply N.leb_gt in H
         | H : (_ =? _) = true |- _ => apply N.eqb_eq in H
         | H : (_ =? _) = false |- _ => apply N.eqb_neq in H
         | H : (_ <? _)%nat = true |- _ => apply Nat.ltb_lt in H
         | H : (_ <? _)%nat = false |- _ => apply Nat.ltb_ge in H
         | H : (_ <=? _)%nat = true |- _ => apply Nat.leb_le in H
         | H : (_ <=? _)%nat = false |- _ => apply Nat.leb_gt in H
         end.

Lemma decode_ascii b q : b < 0x80 -> Utf8.DecodeRune (b :: q) = (b, 1%nat).
Proof. intros H. unfold Utf8.DecodeRune. apply N.ltb_lt in H. rewrite H. reflexivity. Qed.

Lemma first_spec p0 sz lo hi :
  Utf8.first p0 = Some (sz, (lo, hi)) ->
  0x80 <= lo /\ hi <= 0xBF /\
  ((sz = 2%nat /\ 0xC2 <= p0 <= 0xDF) \/
   (sz = 3%nat /\ 0xE0 <= p0 <= 0xEF /\ (p0 = 0xE0 -> lo = 0xA0)) \/
   (sz = 4%nat /\ 0xF0 <= p0 <= 0xF4 /\ (p0 = 0xF0 -> lo = 0x90))).
Proof.
  unfold Utf8.first. intros H. split_tests; try discriminate;
    injection H as <- <- <-; to_Prop; lia.
Qed.

Lemma decode_kelvin q : Utf8.DecodeRune (0xE2 :: 0x84 :: 0xAA :: q) = (0x212A, 3%nat).
Proof. reflexivity. Qed.

Lemma decode_longS q : Utf8.DecodeRune (0xC5 :: 0xBF :: q) = (0x17F, 2%nat).
Proof. reflexivity. Qed.

(** A rune that starts with a byte from 0x80 on: it is no ASCII rune, it
    takes one to four bytes, and the bytes after the first are from 0x80
    on as well. *)
Lemma decode_high b q r w :
  0x80 <= b -> Utf8.DecodeRune (b :: q) = (r, w) ->
  (1 <= w <= length (b :: q))%nat /\ 0x80 <= r /\
  (forall k x, (1 <= k < w)%nat -> (b :: q) !! k = Some x -> 0x80 <= x) /\
  (r = 0x212A -> Fold.kelvin (b :: q) = true /\ w = 3%nat) /\
  (r = 0x17F -> Fold.longS (b :: q) = true /\ w = 2%nat).
Proof.
  intros Hb HD.
  assert (Hk : forall k x, (1 <= k < w)%nat -> (b :: q) !! k = Some x ->
                           (w <= 4)%nat ->
                           (forall y, q !! 0%nat = Some y -> (2 <= w)%nat -> 0x80 <= y) ->
                           (forall y, q !! 1%nat = Some y -> (3 <= w)%nat -> 0x80 <= y) ->
                           (forall y, q !! 2%nat = Some y -> (4 <= w)%nat -> 0x80 <= y) ->
                           0x80 <= x).
  { intros k x Hk Hx Hw H1 H2 H3.
    destruct k as [|[|[|[|k]]]]; simpl in Hx; try lia.
    - apply (H1 x Hx). lia.
    - apply (H2 x Hx). lia.
    - apply (H3 x Hx). lia. }
  unfold Utf8.DecodeRune in HD.
  destruct (b <? 0x80) eqn:E0; [apply N.ltb_lt in E0; lia|].
  destruct (Utf8.first b) as [[sz [lo hi]]|] eqn:EF.
  2:{ injection HD as <- <-. unfold Utf8.RuneError. simpl.
      repeat split; try lia; try discriminate. }
  apply first_spec in EF. destruct EF as (Hlo & Hhi & Hsz).
  unfold Utf8.inRange, Utf8.RuneError in HD.
  destruct Hsz as [[-> Hp]|[(-> & Hp & HE)|(-> & Hp & HE)]];
    (destruct q as [|b1 [|b2 [|b3 q]]]; simpl in HD; split_tests;
     try discriminate; injection HD as <- <-;
     unfold Fold.kelvin, Fold.longS; to_Prop;
     (split; [simpl; lia|]); (split; [lia|]);
     (split; [intros k x Hkk Hx; apply (Hk k x Hkk Hx); [lia|..];
              intros y Hy Hw; simpl in Hy; try discriminate; try lia;
              injection Hy as <-; lia|]);
     split; intros Hr; try lia;
     (split; [|reflexivity]); rewrite ?andb_true_iff, ?N.eqb_eq; lia).
Qed.

Lemma orbit_spec c r :
  c < 0x80 ->
  Regexp.inList (Utf8.foldOrbit c) r
  = ((r <? 0x80) && (Fold.toLower r =? Fold.toLower c)
     || (r =? 0x212A) && (Fold.toLower c =? 0x6B)
     || (r =? 0x17F) && (Fold.toLower c =? 0x73))%bool.
Proof.
  intros Hc. apply Bool.eq_true_iff_eq.
  unfold Regexp.inList, Utf8.foldOrbit, Utf8.isUpper, Utf8.isLower, Utf8.inRange,
    Fold.toLower.
  split_tests; simpl; to_Prop;
    rewrite ?orb_true_iff, ?andb_true_iff, ?N.eqb_eq, ?N.ltb_lt; 
    split_tests; to_Prop;
    repeat match goal with H : _ \/ _ |- _ => destruct H end; to_Prop;
    try lia; split; intros HH;
    repeat match goal with H : _ \/ _ |- _ => destruct H | H : _ /\ _ |- _ => destruct H end;
    try discriminate; try lia.
Qed.

(** The literal step of the matcher, byte by byte. *)
Lemma stepRune_lit c t th :
  c < 0x80 ->
  Regexp.stepRune (Regexp.inList (Utf8.foldOrbit c)) t th
  = match Fold.foldBytes c (drop (fst th) t) with
    | Some n => [((fst th + n)%nat, snd th)]
    | None => []
    end.
Proof.
  intros Hc. unfold Regexp.stepRune, Fold.foldBytes.
  destruct (drop (fst th) t) as [|b q] eqn:Ep; [reflexivity|].
  destruct (b <? 0x80) eqn:Eb.
  - apply N.ltb_lt in Eb. rewrite (decode_ascii b q Eb), (orbit_spec c b Hc).
    apply N.ltb_lt in Eb. rewrite Eb. cbn [andb orb Nat.ltb Nat.leb].
    assert ((Fold.toLower c =? 0x6B) = true -> Fold.kelvin (b :: q) = false) as Hk.
    { intros _. unfold Fold.kelvin. destruct q as [|? [|? ?]]; try reflexivity.
      apply N.ltb_lt in Eb. 
      destruct (b =? 0xE2) eqn:E; [apply N.eqb_eq in E; lia|reflexivity]. }
    assert ((Fold.toLower c =? 0x73) = true -> Fold.longS (b :: q) = false) as Hs.
    { intros _. unfold Fold.longS. destruct q as [|? ?]; try reflexivity.
      apply N.ltb_lt in Eb.
      destruct (b =? 0xC5) eqn:E; [apply N.eqb_eq in E; lia|reflexivity]. }
    assert ((b =? 0x212A) = false) as -> by (apply N.eqb_neq; apply N.ltb_lt in Eb; lia).
    assert ((b =? 0x17F) = false) as -> by (apply N.eqb_neq; apply N.ltb_lt in Eb; lia).
    cbn [andb orb Nat.ltb Nat.leb]. rewrite !orb_false_r.
    destruct (Fold.toLower b =? Fold.toLower c); [reflexivity|].
    destruct (Fold.toLower c =? 0x6B); [rewrite Hk by reflexivity|];
      cbn [andb orb];
      (destruct (Fold.toLower c =? 0x73); [rewrite Hs by reflexivity|]); reflexivity.
  - apply N.ltb_ge in Eb. cbn [andb orb].
    destruct (Utf8.DecodeRune (b :: q)) as [r w] eqn:ED.
    destruct (decode_high b q r w Eb ED) as (Hw & Hr & _ & HK & HS).
    rewrite (orbit_spec c r Hc).
    assert ((r <? 0x80) = false) as -> by (apply N.ltb_ge; lia).
    assert ((0 <? w)%nat = true) as -> by (apply Nat.ltb_lt; lia). cbn [andb orb].
    destruct (Fold.toLower c =? 0x6B) eqn:EK; cbn [andb orb].
    + assert ((Fold.toLower c =? 0x73) = false) as ->
          by (apply N.eqb_eq in EK; apply N.eqb_neq; lia).
      rewrite andb_true_r, andb_false_r, orb_false_r.
      destruct (Fold.kelvin (b :: q)) eqn:EKel.
      * unfold Fold.kelvin in EKel. destruct q as [|b1 [|b2 q]]; try discriminate.
        to_Prop. subst. rewrite decode_kelvin in ED. injection ED as <- <-. reflexivity.
      * destruct (r =? 0x212A) eqn:Er; [|reflexivity].
        apply N.eqb_eq in Er. destruct (HK Er). congruence.
    + rewrite andb_false_r. cbn [andb orb].
      destruct (Fold.toLower c =? 0x73) eqn:ES; cbn [andb orb].
      * rewrite andb_true_r.
        destruct (Fold.longS (b :: q)) eqn:ELs.
        -- unfold Fold.longS in ELs. destruct q as [|b1 q]; try discriminate.
           to_Prop. subst. rewrite decode_longS in ED. injection ED as <- <-. reflexivity.
        -- destruct (r =? 0x17F) eqn:Er; [|reflexivity].
           apply N.eqb_eq in Er. destruct (HS Er). congruence.
      * rewrite andb_false_r. reflexivity.
Qed.

Lemma bytes_String c w :
  Regexp.bytes (String c w) = N_of_ascii c :: Regexp.bytes w.
Proof. reflexivity. Qed.

(** A literal word matches the bytes that write it. *)
Lemma run_lits w : forall t th,
  Fold.isASCII w = true ->
  Regexp.run (Regexp.lits w) t th
  = match Fold.spellLen (Regexp.bytes w) (drop (fst th) t) with
    | Some n => [((fst th + n)%nat, snd th)]
    | None => []
    end.
Proof.
  induction w as [|c w IH]; intros t [i cs] Hw.
  - simpl. rewrite Nat.add_0_r. reflexivity.
  - unfold Fold.isASCII in *. rewrite bytes_String in *. cbn [forallb] in Hw.
    apply andb_true_iff in Hw as [Hc Hw]. apply N.ltb_lt in Hc.
    assert (Hstep : Regexp.stepRune (Regexp.inList (Utf8.foldOrbit (N_of_ascii c))) t (i, cs)
                    = match Fold.foldBytes (N_of_ascii c) (drop i t) with
                      | Some n => [((i + n)%nat, cs)]
                      | None => []
                      end).
    { apply (stepRune_lit (N_of_ascii c) t (i, cs) Hc). }
    cbn [Fold.spellLen fst snd].
    destruct w as [|c' w'].
    + cbn [Regexp.lits Regexp.run]. rewrite Hstep. cbn [Regexp.bytes list_ascii_of_string map Fold.spellLen].
      destruct (Fold.foldBytes (N_of_ascii c) (drop i t)); [|reflexivity].
      rewrite Nat.add_0_r. reflexivity.
    + change (Regexp.lits (String c (String c' w')))
        with (Regexp.Concat (Regexp.Lit c) (Regexp.lits (String c' w'))).
      cbn [Regexp.run]. rewrite Hstep.
      destruct (Fold.foldBytes (N_of_ascii c) (drop i t)) as [n|]; [|reflexivity].
      cbn [flat_map]. rewrite app_nil_r, (IH t ((i + n)%nat, cs) Hw).
      cbn [fst snd]. rewrite <- drop_drop.
      destruct (Fold.spellLen _ _); [|reflexivity].
      rewrite Nat.add_assoc. reflexivity.
Qed.

(** The class [[46]] is the digit 4 or the digit 6. *)
Lemma stepRune_46 t th :
  Regexp.stepRune (Regexp.inList (map N_of_ascii ["4"; "6"]%char)) t th
  = match Fold.foldBytes 0x34 (drop (fst th) t), Fold.foldBytes 0x36 (drop (fst th) t) with
    | Some n, _ => [((fst th + n)%nat, snd th)]
    | None, Some n => [((fst th + n)%nat, snd th)]
    | None, None => []
    end.
Proof.
  unfold Regexp.stepRune, Fold.foldBytes.
  destruct (drop (fst th) t) as [|b q] eqn:Ep; [reflexivity|].
  change (Fold.toLower 0x34) with 0x34. change (Fold.toLower 0x36) with 0x36.
  change (map N_of_ascii ["4"; "6"]%char) with [0x34; 0x36].
  destruct (b <? 0x80) eqn:Eb.
  - apply N.ltb_lt in Eb. rewrite (decode_ascii b q Eb).
    unfold Regexp.inList, Fold.toLower. simpl.
    split_tests;
      repeat (to_Prop; repeat match goal with H : _ \/ _ |- _ => destruct H end);
      try reflexivity; try discriminate; try lia.
  - apply N.ltb_ge in Eb. 
    destruct (Utf8.DecodeRune (b :: q)) as [r w] eqn:ED.
    destruct (decode_high b q r w Eb ED) as (Hw & Hr & _).
    unfold Regexp.inList. simpl.
    assert ((r =? 52) = false) as -> by (apply N.eqb_neq; lia).
    assert ((r =? 54) = false) as -> by (apply N.eqb_neq; lia).
    rewrite andb_false_r. reflexivity.
Qed.

Lemma spellLen_app w1 w2 p :
  Fold.spellLen (w1 ++ w2) p
  = match Fold.spellLen w1 p with
    | Some n =>
      match Fold.spellLen w2 (drop n p) with
      | Some m => Some (n + m)%nat
      | None => None
      end
    | None => None
    end.
Proof.
  revert p. induction w1 as [|c w1 IH]; intros p.
  - cbn [app Fold.spellLen]. rewrite drop_0. destruct (Fold.spellLen w2 p); reflexivity.
  - cbn [app Fold.spellLen]. destruct (Fold.foldBytes c p) as [n|]; [|reflexivity].
    rewrite IH. destruct (Fold.spellLen w1 (drop n p)) as [a|]; [|reflexivity].
    rewrite drop_drop. destruct (Fold.spellLen w2 _); [|reflexivity].
    rewrite Nat.add_assoc. reflexivity.
Qed.

Lemma bytes_append u v : Regexp.bytes (u +:+ v) = Regexp.bytes u ++ Regexp.bytes v.
Proof.
  induction u as [|c u IH]; [reflexivity|].
  change (String c u +:+ v) with (String c (u +:+ v)).
  rewrite !bytes_String, IH. reflexivity.
Qed.

(** Where a literal word ends. *)
Lemma in_run_lits w t i c j c' :
  Fold.isASCII w = true ->
  In (j, c') (Regexp.run (Regexp.lits w) t (i, c))
  <-> exists n, Fold.spellLen (Regexp.bytes w) (drop i t) = Some n /\ j = (i + n)%nat /\ c' = c.
Proof.
  intros Hw. rewrite (run_lits w t (i, c) Hw). cbn [fst snd].
  destruct (Fold.spellLen _ _) as [n|]; simpl.
  - split.
    + intros [H|[]]. injection H as <- <-. eauto.
    + intros (m & H & -> & ->). injection H as ->. left. reflexivity.
  - split; [tauto|]. intros (m & H & _). discriminate.
Qed.

Lemma in_run_46 t i c j c' :
  In (j, c') (Regexp.stepRune (Regexp.inList (map N_of_ascii ["4"; "6"]%char)) t (i, c))
  <-> In (j, c') (Regexp.run (Regexp.lits "4") t (i, c))
      \/ In (j, c') (Regexp.run (Regexp.lits "6") t (i, c)).
Proof.
  cbn [Regexp.run Regexp.lits]. rewrite stepRune_46.
  rewrite !stepRune_lit by (vm_compute; reflexivity).
  change (N_of_ascii "4") with 0x34. change (N_of_ascii "6") with 0x36.
  cbn [fst snd].
  destruct (Fold.foldBytes 0x34 (drop i t)) as [n|] eqn:E4,
           (Fold.foldBytes 0x36 (drop i t)) as [m|] eqn:E6; simpl; try tauto.
  unfold Fold.foldBytes in E4, E6. destruct (drop i t) as [|b q]; [discriminate|].
  change (Fold.toLower 0x34) with 0x34 in E4. change (Fold.toLower 0x36) with 0x36 in E6.
  cbn [N.eqb Pos.eqb andb] in E4, E6.
  destruct ((b <? 0x80) && (Fold.toLower b =? 0x34))%bool; [|discriminate].
  destruct ((b <? 0x80) && (Fold.toLower b =? 0x36))%bool; [|discriminate].
  injection E4 as <-. injection E6 as <-. tauto.
Qed.


(** Every way the first group matches writes one of the schemes. *)
Lemma schemeRX_sound t i c j c' :
  In (j, c') (Regexp.run schemeRX t (i, c)) ->
  c' = c /\ exists w n, In w Fold.schemes /\
                        Fold.spellLen (Regexp.bytes w) (drop i t) = Some n /\
                        j = (i + n)%nat.
Proof.
  unfold schemeRX. cbn [Regexp.run]. 
  rewrite in_app_iff, !in_flat_map.
  intros [((k & c1) & H1 & H2)|((k & c1) & H1 & H2)].
  - assert (Hhead : c1 = c /\ exists w n, In w ["tcp"; "udp"; "ip"]%string /\
              Fold.spellLen (Regexp.bytes w) (drop i t) = Some n /\ k = (i + n)%nat).
    { rewrite !in_app_iff in H1. destruct H1 as [[H1|H1]|H1];
        (apply in_run_lits in H1; [|reflexivity]); destruct H1 as (n & E & -> & ->);
          (split; [reflexivity|]); eexists _, n; (split; [|split; [exact E|reflexivity]]);
            simpl; tauto. }
    destruct Hhead as (-> & w & n & Hw & E & ->).
    apply in_app_iff in H2. destruct H2 as [H2|[H2|[]]].
    + apply in_run_46 in H2. destruct H2 as [H2|H2];
        (apply in_run_lits in H2; [|reflexivity]); destruct H2 as (m & E2 & -> & ->);
          (split; [reflexivity|]).
      * exists (w +:+ "4")%string, (n + m)%nat. split; [|split; [|lia]].
        -- simpl in Hw. destruct Hw as [<-|[<-|[<-|[]]]]; simpl; tauto.
        -- rewrite bytes_append, spellLen_app, E, drop_drop, E2. reflexivity.
      * exists (w +:+ "6")%string, (n + m)%nat. split; [|split; [|lia]].
        -- simpl in Hw. destruct Hw as [<-|[<-|[<-|[]]]]; simpl; tauto.
        -- rewrite bytes_append, spellLen_app, E, drop_drop, E2. reflexivity.
    + injection H2 as <- <-. split; [reflexivity|]. exists w, n.
      split; [|split; [exact E|reflexivity]].
      simpl in Hw. destruct Hw as [<-|[<-|[<-|[]]]]; simpl; tauto.
  - apply in_run_lits in H1; [|reflexivity]. destruct H1 as (n & E & -> & ->).
    apply in_app_iff in H2. destruct H2 as [H2|[H2|[]]].
    + apply in_app_iff in H2. destruct H2 as [H2|H2];
        (apply in_run_lits in H2; [|reflexivity]); destruct H2 as (m & E2 & -> & ->);
          (split; [reflexivity|]).
      * exists "unixgram"%string, (n + m)%nat. split; [simpl; tauto|]. split; [|lia].
        change "unixgram"%string with ("unix" +:+ "gram")%string.
        rewrite bytes_append, spellLen_app, E, drop_drop, E2. reflexivity.
      * exists "unixpacket"%string, (n + m)%nat. split; [simpl; tauto|]. split; [|lia].
        change "unixpacket"%string with ("unix" +:+ "packet")%string.
        rewrite bytes_append, spellLen_app, E, drop_drop, E2. reflexivity.
    + injection H2 as <- <-. split; [reflexivity|]. exists "unix"%string, n.
      split; [simpl; tauto|]. split; [exact E|reflexivity].
Qed.

Lemma spellLen_append u v p n :
  Fold.spellLen (Regexp.bytes (u +:+ v)) p = Some n ->
  exists a b, Fold.spellLen (Regexp.bytes u) p = Some a /\
              Fold.spellLen (Regexp.bytes v) (drop a p) = Some b /\ n = (a + b)%nat.
Proof.
  rewrite bytes_append, spellLen_app.
  destruct (Fold.spellLen (Regexp.bytes u) p) as [a|]; [|discriminate].
  destruct (Fold.spellLen (Regexp.bytes v) (drop a p)) as [b|] eqn:Eb; [|discriminate].
  intros H. injection H as <-. exists a, b. auto.
Qed.

Lemma in_concat_quest_skip a b t th th' :
  In th' (Regexp.run a t th) ->
  In th' (Regexp.run (Regexp.Concat a (Regexp.Quest b)) t th).
Proof.
  intros H. cbn [Regexp.run]. apply in_flat_map. exists th'. split; [exact H|].
  apply in_app_iff. right. left. reflexivity.
Qed.

Lemma in_concat_quest_take a b t th th1 th' :
  In th1 (Regexp.run a t th) -> In th' (Regexp.run b t th1) ->
  In th' (Regexp.run (Regexp.Concat a (Regexp.Quest b)) t th).
Proof.
  intros H1 H2. cbn [Regexp.run]. apply in_flat_map. exists th1. split; [exact H1|].
  apply in_app_iff. left. exact H2.
Qed.

(** A scheme written at an offset is a way the first group matches. *)
Lemma schemeRX_complete t i c w n :
  In w Fold.schemes ->
  Fold.spellLen (Regexp.bytes w) (drop i t) = Some n ->
  In ((i + n)%nat, c) (Regexp.run schemeRX t (i, c)).
Proof.
  intros Hw E. unfold schemeRX.
  change (Regexp.run (Regexp.Alternate ?a ?b) t (i, c))
    with (Regexp.run a t (i, c) ++ Regexp.run b t (i, c)).
  assert (L : forall u k m, Fold.isASCII u = true ->
                Fold.spellLen (Regexp.bytes u) (drop k t) = Some m ->
                In ((k + m)%nat, c) (Regexp.run (Regexp.lits u) t (k, c))).
  { intros u k m Hu Hm. apply in_run_lits; [exact Hu|]. eauto. }
  assert (D : forall k m, (Fold.spellLen (Regexp.bytes "4") (drop k t) = Some m \/
                           Fold.spellLen (Regexp.bytes "6") (drop k t) = Some m) ->
                In ((k + m)%nat, c)
                   (Regexp.run (Regexp.CharClass ["4"; "6"]%char) t (k, c))).
  { intros k m Hm. cbn [Regexp.run]. apply in_run_46.
    destruct Hm as [Hm|Hm]; [left|right]; apply L; auto. }
  assert (H3 : forall u, In u ["tcp"; "udp"; "ip"]%string -> forall m,
                Fold.spellLen (Regexp.bytes u) (drop i t) = Some m ->
                In ((i + m)%nat, c)
                   (Regexp.run (Regexp.Alternate
                                  (Regexp.Alternate (Regexp.lits "tcp") (Regexp.lits "udp"))
                                  (Regexp.lits "ip")) t (i, c))).
  { intros u Hu m Hm. cbn [Regexp.run]. rewrite !in_app_iff.
    simpl in Hu. destruct Hu as [<-|[<-|[<-|[]]]]; [left; left|left; right|right];
      apply L; auto. }
  apply in_app_iff.
  simpl in Hw.
  destruct Hw as [<-|[<-|[<-|[<-|[<-|[<-|[<-|[<-|[<-|[<-|[<-|[<-|[]]]]]]]]]]]]].
  - left. apply in_concat_quest_skip, (H3 "tcp"%string); [simpl; tauto|exact E].
  - left. apply (spellLen_append "tcp" "4") in E as (a & b & Ea & Eb & ->).
    rewrite drop_drop in Eb. rewrite Nat.add_assoc.
    eapply in_concat_quest_take; [apply (H3 "tcp"%string); [simpl; tauto|exact Ea]|].
    apply D. left. exact Eb.
  - left. apply (spellLen_append "tcp" "6") in E as (a & b & Ea & Eb & ->).
    rewrite drop_drop in Eb. rewrite Nat.add_assoc.
    eapply in_concat_quest_take; [apply (H3 "tcp"%string); [simpl; tauto|exact Ea]|].
    apply D. right. exact Eb.
  - left. apply in_concat_quest_skip, (H3 "udp"%string); [simpl; tauto|exact E].
  - left. apply (spellLen_append "udp" "4") in E as (a & b & Ea & Eb & ->).
    rewrite drop_drop in Eb. rewrite Nat.add_assoc.
    eapply in_concat_quest_take; [apply (H3 "udp"%string); [simpl; tauto|exact Ea]|].
    apply D. left. exact Eb.
  - left. apply (spellLen_append "udp" "6") in E as (a & b & Ea & Eb & ->).
    rewrite drop_drop in Eb. rewrite Nat.add_assoc.
    eapply in_concat_quest_take; [apply (H3 "udp"%string); [simpl; tauto|exact Ea]|].
    apply D. right. exact Eb.
  - left. apply in_concat_quest_skip, (H3 "ip"%string); [simpl; tauto|exact E].
  - left. apply (spellLen_append "ip" "4") in E as (a & b & Ea & Eb & ->).
    rewrite drop_drop in Eb. rewrite Nat.add_assoc.
    eapply in_concat_quest_take; [apply (H3 "ip"%string); [simpl; tauto|exact Ea]|].
    apply D. left. exact Eb.
  - left. apply (spellLen_append "ip" "6") in E as (a & b & Ea & Eb & ->).
    rewrite drop_drop in Eb. rewrite Nat.add_assoc.
    eapply in_concat_quest_take; [apply (H3 "ip"%string); [simpl; tauto|exact Ea]|].
    apply D. right. exact Eb.
  - right. apply in_concat_quest_skip, L; [reflexivity|exact E].
  - right. apply (spellLen_append "unix" "gram") in E as (a & b & Ea & Eb & ->).
    rewrite drop_drop in Eb. rewrite Nat.add_assoc.
    eapply in_concat_quest_take; [apply L; [reflexivity|exact Ea]|].
    cbn [Regexp.run]. apply in_app_iff. left. apply L; [reflexivity|exact Eb].
  - right. apply (spellLen_append "unix" "packet") in E as (a & b & Ea & Eb & ->).
    rewrite drop_drop in Eb. rewrite Nat.add_assoc.
    eapply in_concat_quest_take; [apply L; [reflexivity|exact Ea]|].
    cbn [Regexp.run]. apply in_app_iff. right. apply L; [reflexivity|exact Eb].
Qed.

(** One round of [.]: it moves on by the width of a rune, past bytes that
    are no newline. *)
Lemma in_any t i c j c' :
  In (j, c') (Regexp.stepRune (fun r => negb (r =? 0x0A)) t (i, c)) ->
  c' = c /\ (i < j <= length t)%nat /\ Fold.noNL (Regexp.slice t i j) = true.
Proof.
  unfold Regexp.stepRune. cbn [fst snd].
  destruct (drop i t) as [|b q] eqn:Ep; [simpl; tauto|].
  assert (Hlen : (length (b :: q) = length t - i)%nat) by (rewrite <- Ep; apply length_drop).
  destruct (Utf8.DecodeRune (b :: q)) as [r w] eqn:ED.
  destruct ((0 <? w)%nat && negb (r =? 0x0A))%bool eqn:E; [|simpl; tauto].
  intros [H|[]]. injection H as <- <-. to_Prop.
  unfold Regexp.slice, Fold.noNL. rewrite Ep.
  replace (i + w - i)%nat with w by lia.
  destruct (b <? 0x80) eqn:Eb.
  - apply N.ltb_lt in Eb. rewrite (decode_ascii b q Eb) in ED. injection ED as <- <-.
    simpl in *. split; [reflexivity|]. split; [lia|].
    rewrite andb_true_r. apply negb_true_iff, N.eqb_neq. assumption.
  - apply N.ltb_ge in Eb.
    destruct (decode_high b q r w Eb ED) as (Hw & Hr & Hc & _).
    split; [reflexivity|]. split; [simpl in *; lia|].
    apply forallb_forall. intros x Hx. apply negb_true_iff, N.eqb_neq.
    apply list_elem_of_In, list_elem_of_lookup in Hx as [k Hk].
    apply lookup_take_Some in Hk as [Hk Hkw].
    destruct k as [|k].
    + simpl in Hk. injection Hk as <-. lia.
    + assert (0x80 <= x) by (apply (Hc (S k) x); [lia|exact Hk]). lia.
Qed.

Lemma any_progress t i c :
  (i < length t)%nat -> Fold.noNL (drop i t) = true ->
  exists w, (1 <= w)%nat /\ (i + w <= length t)%nat /\
            Regexp.stepRune (fun r => negb (r =? 0x0A)) t (i, c) = [((i + w)%nat, c)].
Proof.
  intros Hi Hn. unfold Regexp.stepRune. cbn [fst snd].
  destruct (drop i t) as [|b q] eqn:Ep.
  { apply (f_equal length) in Ep. rewrite length_drop in Ep. simpl in Ep. lia. }
  assert (Hlen : (length (b :: q) = length t - i)%nat) by (rewrite <- Ep; apply length_drop).
  simpl in Hn. apply andb_true_iff in Hn as [Hb _]. apply negb_true_iff, N.eqb_neq in Hb.
  destruct (b <? 0x80) eqn:Eb.
  - apply N.ltb_lt in Eb. rewrite (decode_ascii b q Eb).
    exists 1%nat. split; [lia|]. split; [simpl in Hlen; lia|].
    apply N.eqb_neq in Hb. rewrite Hb. reflexivity.
  - apply N.ltb_ge in Eb.
    destruct (Utf8.DecodeRune (b :: q)) as [r w] eqn:ED.
    destruct (decode_high b q r w Eb ED) as (Hw & Hr & _).
    exists w. split; [lia|]. split; [lia|].
    assert ((0 <? w)%nat = true) as -> by (apply Nat.ltb_lt; lia).
    assert ((r =? 0x0A) = false) as -> by (apply N.eqb_neq; lia).
    reflexivity.
Qed.

Lemma slice_app t i k j :
  (i <= k <= j)%nat -> Regexp.slice t i j = Regexp.slice t i k ++ Regexp.slice t k j.
Proof.
  intros H. unfold Regexp.slice.
  replace (j - i)%nat with ((k - i) + (j - k))%nat by lia.
  rewrite <- take_take_drop, drop_drop.
  replace (i + (k - i))%nat with k by lia. reflexivity.
Qed.

Lemma noNL_app p q : Fold.noNL (p ++ q) = (Fold.noNL p && Fold.noNL q)%bool.
Proof. apply forallb_app. Qed.

Lemma noNL_drop p n : Fold.noNL p = true -> Fold.noNL (drop n p) = true.
Proof.
  intros H. rewrite <- (take_drop n p) in H. rewrite noNL_app in H.
  apply andb_true_iff in H. tauto.
Qed.

(** The rounds of [.+] end after bytes that are no newline. *)
Lemma in_iterate_any t fuel : forall i c j c',
  In (j, c') (Regexp.iterate (Regexp.stepRune (fun r => negb (r =? 0x0A)) t) fuel (i, c)) ->
  c' = c /\ (i < j <= length t)%nat /\ Fold.noNL (Regexp.slice t i j) = true.
Proof.
  induction fuel as [|fuel IH]; intros i c j c' H; [destruct H|].
  cbn [Regexp.iterate] in H. apply in_flat_map in H as ([k c1] & H1 & H2).
  apply in_any in H1 as (-> & Hk & Hn).
  apply in_app_iff in H2 as [H2|[H2|[]]].
  - cbn [fst] in H2. destruct (i <? k)%nat; [|destruct H2].
    apply IH in H2 as (-> & Hj & Hn2).
    split; [reflexivity|]. split; [lia|].
    rewrite (slice_app t i k j) by lia. rewrite noNL_app, Hn, Hn2. reflexivity.
  - injection H2 as <- <-. auto.
Qed.

(** From an offset with bytes left, none of them a newline, the rounds of
    [.+] reach the end of the text. *)
Lemma iterate_any_end t c fuel : forall i,
  (length t - i <= fuel)%nat -> (i < length t)%nat -> Fold.noNL (drop i t) = true ->
  In (length t, c)
     (Regexp.iterate (Regexp.stepRune (fun r => negb (r =? 0x0A)) t) fuel (i, c)).
Proof.
  induction fuel as [|fuel IH]; intros i Hf Hi Hn; [lia|].
  destruct (any_progress t i c Hi Hn) as (w & Hw & Hle & Hs).
  cbn [Regexp.iterate]. rewrite Hs. cbn [flat_map fst]. rewrite app_nil_r.
  apply in_app_iff.
  destruct (Nat.eq_dec (i + w)%nat (length t)) as [E|E].
  - right. left. rewrite E. reflexivity.
  - left. assert ((i <? i + w)%nat = true) as -> by (apply Nat.ltb_lt; lia).
    apply IH; [lia|lia|].
    rewrite <- drop_drop. apply noNL_drop, Hn.
Qed.

(** *** Strings and their bytes *)

Lemma ofBytes_bytes s : Regexp.ofBytes (Regexp.bytes s) = s.
Proof.
  unfold Regexp.ofBytes, Regexp.bytes. rewrite map_map.
  rewrite (map_ext _ id) by (intros a; apply ascii_N_embedding).
  rewrite map_id. apply string_of_list_ascii_of_string.
Qed.

Lemma bytes_bounded s : Forall (fun b => b < 256) (Regexp.bytes s).
Proof.
  unfold Regexp.bytes. apply Forall_forall. intros b Hb.
  apply list_elem_of_In, in_map_iff in Hb as (a & <- & _). apply N_ascii_bounded.
Qed.

Lemma bytes_ofBytes l : Forall (fun b => b < 256) l -> Regexp.bytes (Regexp.ofBytes l) = l.
Proof.
  intros H. unfold Regexp.ofBytes, Regexp.bytes.
  rewrite list_ascii_of_string_of_list_ascii, map_map.
  induction H as [|b l Hb _ IH]; [reflexivity|].
  simpl. rewrite IH, N_ascii_embedding by exact Hb. reflexivity.
Qed.

Lemma ofBytes_app l1 l2 :
  Regexp.ofBytes (l1 ++ l2) = (Regexp.ofBytes l1 +:+ Regexp.ofBytes l2)%string.
Proof.
  unfold Regexp.ofBytes. induction l1 as [|b l1 IH]; [reflexivity|].
  simpl. rewrite IH. reflexivity.
Qed.

(** *** What writing a word looks at *)

Lemma foldBytes_local c p n :
  Fold.foldBytes c p = Some n ->
  (1 <= n <= length p)%nat /\
  (forall p', take n p' = take n p -> Fold.foldBytes c p' = Some n) /\
  (c <> 0x3A -> forall k x, (k < n)%nat -> p !! k = Some x -> x <> 0x3A).
Proof.
  unfold Fold.foldBytes. destruct p as [|b q]; [discriminate|].
  destruct ((b <? 0x80) && (Fold.toLower b =? Fold.toLower c))%bool eqn:E1.
  { intros H. injection H as <-. split; [simpl; lia|]. split.
    - intros [|b' q'] Hp; [discriminate|]. simpl in Hp. injection Hp as ->.
      rewrite E1. reflexivity.
    - intros Hc [|k] x Hk Hx; [|lia]. simpl in Hx. injection Hx as <-.
      unfold Fold.toLower in E1. split_tests;
        repeat (to_Prop; repeat match goal with H : _ \/ _ |- _ => destruct H end);
        try discriminate; lia. }
  destruct ((Fold.toLower c =? 0x6B) && Fold.kelvin (b :: q))%bool eqn:E2.
  { intros H. injection H as <-. apply andb_true_iff in E2 as [Ec Ek].
    unfold Fold.kelvin in Ek. destruct q as [|b1 [|b2 q]]; try discriminate.
    to_Prop. subst b b1 b2. split; [simpl; lia|]. split.
    - intros [|x0 [|x1 [|x2 q']]] Hp; try discriminate. simpl in Hp.
      injection Hp as -> -> ->. apply N.eqb_eq in Ec. rewrite Ec. reflexivity.
    - intros _ [|[|[|k]]] x Hk Hx; simpl in Hx; try lia; injection Hx as <-; lia. }
  destruct ((Fold.toLower c =? 0x73) && Fold.longS (b :: q))%bool eqn:E3; [|discriminate].
  intros H. injection H as <-. apply andb_true_iff in E3 as [Ec Ek].
  unfold Fold.longS in Ek. destruct q as [|b1 q]; try discriminate.
  to_Prop. subst b b1. split; [simpl; lia|]. split.
  - intros [|x0 [|x1 q']] Hp; try discriminate. simpl in Hp.
    injection Hp as -> ->. rewrite Ec. reflexivity.
  - intros _ [|[|k]] x Hk Hx; simpl in Hx; try lia; injection Hx as <-; lia.
Qed.

Lemma spellLen_local w : forall p n,
  Fold.spellLen w p = Some n ->
  (n <= length p)%nat /\
  (forall p', take n p' = take n p -> Fold.spellLen w p' = Some n) /\
  (Forall (fun c => c <> 0x3A) w ->
   forall k x, (k < n)%nat -> p !! k = Some x -> x <> 0x3A).
Proof.
  induction w as [|c w IH]; intros p n H.
  - simpl in H. injection H as <-. split; [lia|]. split; [reflexivity|]. intros; lia.
  - cbn [Fold.spellLen] in H.
    destruct (Fold.foldBytes c p) as [a|] eqn:Ea; [|discriminate].
    destruct (Fold.spellLen w (drop a p)) as [b|] eqn:Eb; [|discriminate].
    injection H as <-.
    destruct (foldBytes_local c p a Ea) as (Ha & La & Ca).
    destruct (IH _ _ Eb) as (Hb & Lb & Cb).
    rewrite length_drop in Hb.
    split; [lia|]. split.
    + intros p' Hp. cbn [Fold.spellLen].
      rewrite (La p').
      * rewrite (Lb (drop a p')); [reflexivity|].
        rewrite !take_drop_commute. f_equal. exact Hp.
      * apply (f_equal (take a)) in Hp. rewrite !take_take in Hp.
        replace (a `min` (a + b))%nat with a in Hp by lia. exact Hp.
    + intros Hw k x Hk Hx. apply Forall_cons in Hw as [Hc Hw].
      destruct (Nat.lt_ge_cases k a) as [Hlt|Hge].
      * apply (Ca Hc k x Hlt Hx).
      * apply (Cb Hw (k - a)%nat x); [lia|].
        rewrite lookup_drop. replace (a + (k - a))%nat with k by lia. exact Hx.
Qed.

(** *** The whole pattern *)

Lemma spellLen_colon p :
  Fold.spellLen (Regexp.bytes "://") p = if Fold.colonSlashSlash p then Some 3%nat else None.
Proof.
  assert (F : forall c q, c = 0x3A \/ c = 0x2F ->
            Fold.foldBytes c q = match q with
                                 | b :: _ => if b =? c then Some 1%nat else None
                                 | [] => None
                                 end).
  { intros c q Hc. unfold Fold.foldBytes. destruct q as [|b q]; [reflexivity|].
    destruct Hc as [-> | ->]; change (Fold.toLower 0x3A) with 0x3A;
      change (Fold.toLower 0x2F) with 0x2F; cbn [N.eqb Pos.eqb andb];
        unfold Fold.toLower; split_tests;
          repeat (to_Prop; repeat match goal with H : _ \/ _ |- _ => destruct H end);
          try reflexivity; try discriminate; try lia. }
  change (Regexp.bytes "://") with [0x3A; 0x2F; 0x2F]. cbn [Fold.spellLen].
  rewrite (F 0x3A p) by auto. unfold Fold.colonSlashSlash.
  destruct p as [|a q]; [reflexivity|].
  destruct (a =? 0x3A); [|destruct q as [|? [|? ?]]; reflexivity]. cbn [drop andb]. rewrite ?drop_0.
  rewrite (F 0x2F q) by auto. destruct q as [|b q]; [reflexivity|].
  destruct (b =? 0x2F); [|destruct q; reflexivity]. cbn [drop andb]. rewrite ?drop_0.
  rewrite (F 0x2F q) by auto. destruct q as [|c q]; [reflexivity|].
  destruct (c =? 0x2F); reflexivity.
Qed.

Lemma addrRX_sound t i0 j cs :
  In (j, cs) (Regexp.run addrRX t (i0, [])) ->
  i0 = 0%nat /\ exists n, Fold.parsesAt t n /\ j = length t /\ cs = Fold.capsAt t n.
Proof.
  unfold addrRX. cbn [Regexp.run].
  intros H. apply in_flat_map in H as ([k0 c0] & H0 & H).
  cbn [fst] in H0. destruct (Nat.eqb_spec i0 0) as [->|]; [|destruct H0].
  destruct H0 as [H0|[]]. injection H0 as <- <-.
  split; [reflexivity|].
  apply in_flat_map in H as ([k1 c1] & H1 & H).
  apply in_map_iff in H1 as ([n c1'] & H1 & Hs). cbn [fst snd] in H1. injection H1 as <- <-.
  apply schemeRX_sound in Hs as (-> & w & m & Hw & Ew & ->). rewrite drop_0 in Ew.
  cbn [Nat.add fst snd] in H.
  apply in_flat_map in H as ([k2 c2] & H2 & H).
  apply (in_run_lits "://") in H2 as (a & Ea & -> & ->); [|reflexivity].
  rewrite spellLen_colon in Ea. destruct (Fold.colonSlashSlash (drop m t)) eqn:Ec; [|discriminate].
  injection Ea as <-.
  apply in_flat_map in H as ([k3 c3] & H3 & H).
  apply in_map_iff in H3 as ([k3' c3'] & H3 & Hp). cbn [fst snd] in H3. injection H3 as <- <-.
  apply in_iterate_any in Hp as (-> & Hk & Hn).
  cbn [fst] in H. destruct (Nat.eqb_spec k3' (length t)) as [->|]; [|destruct H].
  destruct H as [H|[]]. injection H as <- <-.
  exists m. split; [|split; reflexivity].
  unfold Fold.parsesAt. split; [eauto|]. split; [exact Ec|]. split; [lia|].
  unfold Regexp.slice in Hn. rewrite take_ge in Hn by (rewrite length_drop; lia).
  exact Hn.
Qed.

Lemma addrRX_complete t n :
  Fold.parsesAt t n -> In (length t, Fold.capsAt t n) (Regexp.run addrRX t (0%nat, [])).
Proof.
  intros ((w & Hw & Ew) & Ec & Hlen & Hn).
  unfold addrRX. cbn [Regexp.run].
  apply in_flat_map. exists (0%nat, []). split; [left; reflexivity|].
  apply in_flat_map. exists (n, [(1, (0, n))]%nat). split.
  { apply in_map_iff. exists (n, []). split; [reflexivity|].
    apply (schemeRX_complete t 0 [] w n Hw). rewrite drop_0. exact Ew. }
  apply in_flat_map. exists ((n + 3)%nat, [(1, (0, n))]%nat). split.
  { apply (in_run_lits "://"); [reflexivity|]. exists 3%nat.
    rewrite spellLen_colon, Ec. auto. }
  apply in_flat_map. exists (length t, Fold.capsAt t n). split.
  { apply in_map_iff. exists (length t, [(1, (0, n))]%nat). split; [reflexivity|].
    apply iterate_any_end; [lia|lia|exact Hn]. }
  cbn [fst]. rewrite Nat.eqb_refl. left. reflexivity.
Qed.

Lemma parsesAt_unique t n m : Fold.parsesAt t n -> Fold.parsesAt t m -> n = m.
Proof.
  assert (L : forall a b, Fold.parsesAt t a -> Fold.parsesAt t b -> ~ (a < b)%nat).
  { intros a b (_ & Ca & Ha & _) ((w & Hw & Ew) & _) Hlt.
    destruct (spellLen_local _ _ _ Ew) as (_ & _ & Hc).
    assert (Hx : t !! a = Some 0x3A).
    { unfold Fold.colonSlashSlash in Ca.
      destruct (drop a t) as [|x [|y [|z q]]] eqn:Ed; try discriminate.
      to_Prop. subst x.
      rewrite <- (Nat.add_0_r a), <- lookup_drop, Ed. reflexivity. }
    apply (Hc (ltac:(
      simpl in Hw;
      destruct Hw as [<-|[<-|[<-|[<-|[<-|[<-|[<-|[<-|[<-|[<-|[<-|[<-|[]]]]]]]]]]]]];
      vm_compute; repeat constructor; discriminate)) a 0x3A Hlt Hx).
    reflexivity. }
  intros Hn Hm. destruct (Nat.lt_trichotomy n m) as [H|[H|H]]; [|exact H|].
  - destruct (L n m Hn Hm H).
  - destruct (L m n Hm Hn H).
Qed.

Lemma search_none a t starts :
  (forall i, In i starts -> Regexp.run a t (i, []) = []) ->
  Regexp.search a t starts = None.
Proof.
  induction starts as [|i rest IH]; intros H; [reflexivity|].
  simpl. rewrite (H i) by (left; reflexivity).
  apply IH. intros k Hk. apply H. right. exact Hk.
Qed.

Lemma addrRX_anchored t i : (0 < i)%nat -> Regexp.run addrRX t (i, []) = [].
Proof.
  intros Hi. destruct (Regexp.run addrRX t (i, [])) as [|[j cs] l] eqn:E; [reflexivity|].
  assert (H : In (j, cs) (Regexp.run addrRX t (i, []))) by (rewrite E; left; reflexivity).
  apply addrRX_sound in H as [-> _]. lia.
Qed.

Lemma slice_all t : Regexp.slice t 0 (length t) = t.
Proof. unfold Regexp.slice. rewrite drop_0, Nat.sub_0_r. apply firstn_all. Qed.

(** What [FindStringSubmatch] of [addrRX] returns. *)
Lemma find_addrRX s :
  (forall n, Fold.parsesAt (Regexp.bytes s) n ->
             Regexp.FindStringSubmatch addrRX 2 s
             = Some [s; Regexp.ofBytes (take n (Regexp.bytes s));
                     Regexp.ofBytes (drop (n + 3) (Regexp.bytes s))]) /\
  ((forall n, ~ Fold.parsesAt (Regexp.bytes s) n) ->
   Regexp.FindStringSubmatch addrRX 2 s = None).
Proof.
  unfold Regexp.FindStringSubmatch. set (t := Regexp.bytes s).
  cbn [seq Regexp.search].
  destruct (Regexp.run addrRX t (0%nat, [])) as [|[j cs] l] eqn:E.
  - rewrite search_none.
    2:{ intros i Hi. apply in_seq in Hi. apply addrRX_anchored. lia. }
    split; [|reflexivity].
    intros n Hn. apply addrRX_complete in Hn. rewrite E in Hn. destruct Hn.
  - assert (H : In (j, cs) (Regexp.run addrRX t (0%nat, []))) by (rewrite E; left; reflexivity).
    apply addrRX_sound in H as (_ & m & Hm & -> & ->).
    split.
    + intros n Hn. rewrite (parsesAt_unique t n m Hn Hm).
      unfold Fold.capsAt. cbn [map Regexp.group Regexp.capOf Nat.eqb].
      rewrite slice_all. unfold t at 1. rewrite ofBytes_bytes.
      unfold Regexp.slice. rewrite drop_0, Nat.sub_0_r.
      rewrite (take_ge (drop (m + 3) t)) by (rewrite length_drop; lia).
      reflexivity.
    + intros Hno. destruct (Hno m Hm).
Qed.

Lemma colonSlashSlash_spec p : Fold.colonSlashSlash p = true <-> take 3 p = Fold.colon.
Proof.
  unfold Fold.colonSlashSlash, Fold.colon. destruct p as [|a [|b [|c q]]]; simpl;
    try (split; discriminate).
  rewrite !andb_true_iff, !N.eqb_eq. split.
  - intros [[-> ->] ->]. rewrite take_0. reflexivity.
  - intros H. injection H as -> -> ->. auto.
Qed.

(** The text of a scheme, [://] and a rest, at the level of strings. *)
Lemma parsesAt_of_string p a :
  Fold.isScheme p = true -> a <> EmptyString -> Fold.hasNewline a = false ->
  let t := Regexp.bytes (p +:+ "://" +:+ a) in
  let n := length (Regexp.bytes p) in
  Fold.parsesAt t n /\ Regexp.ofBytes (take n t) = p /\ Regexp.ofBytes (drop (n + 3) t) = a.
Proof.
  intros Hp Ha Hnl. cbn zeta.
  rewrite !bytes_append. change (Regexp.bytes "://") with Fold.colon.
  set (bp := Regexp.bytes p). set (ba := Regexp.bytes a).
  assert (Hd : drop (length bp) (bp ++ Fold.colon ++ ba) = Fold.colon ++ ba) by apply drop_app_length.
  assert (Hd3 : drop (length bp + 3) (bp ++ Fold.colon ++ ba) = ba).
  { rewrite <- drop_drop, Hd. reflexivity. }
  assert (Ht : take (length bp) (bp ++ Fold.colon ++ ba) = bp) by apply take_app_length.
  split; [|split].
  - unfold Fold.parsesAt. split; [|split; [|split]].
    + unfold Fold.isScheme in Hp. apply existsb_exists in Hp as (w & Hw & Hs).
      exists w. split; [exact Hw|].
      unfold Fold.spells in Hs. fold bp in Hs.
      destruct (Fold.spellLen (Regexp.bytes w) bp) as [k|] eqn:Ek; [|discriminate].
      apply Nat.eqb_eq in Hs. subst k.
      destruct (spellLen_local _ _ _ Ek) as (_ & L & _).
      apply L. rewrite Ht. symmetry. apply firstn_all.
    + rewrite Hd. reflexivity.
    + rewrite !length_app. simpl.
      assert (length ba <> 0)%nat; [|lia].
      intros H0. apply Ha. rewrite <- (ofBytes_bytes a). fold ba.
      destruct ba; [reflexivity|discriminate].
    + rewrite Hd3. unfold Fold.hasNewline in Hnl. apply negb_false_iff in Hnl. exact Hnl.
  - rewrite Ht. apply ofBytes_bytes.
  - rewrite Hd3. apply ofBytes_bytes.
Qed.

Lemma string_of_parsesAt s n :
  Fold.parsesAt (Regexp.bytes s) n ->
  let p := Regexp.ofBytes (take n (Regexp.bytes s)) in
  let a := Regexp.ofBytes (drop (n + 3) (Regexp.bytes s)) in
  s = (p +:+ "://" +:+ a)%string /\ Fold.isScheme p = true /\ a <> EmptyString /\
  Fold.hasNewline a = false.
Proof.
  set (t := Regexp.bytes s). intros ((w & Hw & Ew) & Ec & Hlen & Hn). cbn zeta.
  pose proof (bytes_bounded s) as Hb. fold t in Hb.
  assert (Bp : Regexp.bytes (Regexp.ofBytes (take n t)) = take n t).
  { apply bytes_ofBytes, Forall_take, Hb. }
  assert (Ba : Regexp.bytes (Regexp.ofBytes (drop (n + 3) t)) = drop (n + 3) t).
  { apply bytes_ofBytes, Forall_drop, Hb. }
  apply colonSlashSlash_spec in Ec.
  split; [|split; [|split]].
  - rewrite <- (ofBytes_bytes s). fold t.
    rewrite <- (take_drop n t) at 1. rewrite <- (take_drop 3 (drop n t)) at 1.
    rewrite Ec, drop_drop, !ofBytes_app. reflexivity.
  - unfold Fold.isScheme. apply existsb_exists. exists w. split; [exact Hw|].
    unfold Fold.spells. rewrite Bp.
    destruct (spellLen_local _ _ _ Ew) as (Hle & L & _).
    rewrite (L (take n t)) by (rewrite take_take; f_equal; lia).
    apply Nat.eqb_eq. rewrite length_take. lia.
  - intros H0. apply (f_equal Regexp.bytes) in H0. rewrite Ba in H0.
    apply (f_equal length) in H0. rewrite length_drop in H0. simpl in H0. lia.
  - unfold Fold.hasNewline. rewrite Ba, Hn. reflexivity.
Qed.

(** C8 as amended.  A string that is a scheme in any letter case (as Unicode
    folds case, so that the Kelvin sign may stand for [k]), then [://],
    then a rest that is not empty and holds no newline, parses to the
    scheme as written and the rest; every other string fails, with
    [ErrInvalidCSIEndpoint] in [csc] and with the error naming the string
    in the mock plug-in. *)
Theorem ParseProtoAddr_spec (s : string) :
  (forall p a,
      s = (p +:+ "://" +:+ a)%string -> Fold.isScheme p = true ->
      a <> EmptyString -> Fold.hasNewline a = false ->
      Csc.ParseProtoAddr s = (p, a, None) /\
      Mock.parseProtoAddr s = (p, a, None)) /\
  ((forall p a,
       s = (p +:+ "://" +:+ a)%string -> Fold.isScheme p = true ->
       a <> EmptyString -> Fold.hasNewline a = true) ->
   Csc.ParseProtoAddr s = (EmptyString, EmptyString, Some ErrInvalidCSIEndpoint) /\
   Mock.parseProtoAddr s = (EmptyString, EmptyString, Some (ErrInvalidAddress s))).
Proof.
  destruct (find_addrRX s) as [Hyes Hno]. split.
  - intros p a -> Hp Ha Hnl.
    destruct (parsesAt_of_string p a Hp Ha Hnl) as (Hn & Ep & Ea).
    unfold Csc.ParseProtoAddr, Mock.parseProtoAddr.
    rewrite (Hyes _ Hn), Ep, Ea. split; reflexivity.
  - intros Hall.
    unfold Csc.ParseProtoAddr, Mock.parseProtoAddr.
    rewrite Hno; [split; reflexivity|].
    intros n Hn. apply string_of_parsesAt in Hn as (Es & Hp & Ha & Hnl).
    rewrite (Hall _ _ Es Hp Ha) in Hnl. discriminate.
Qed.
End AddressFacts.

Lemma ParseProtoAddr_spec_witness :
  Csc.ParseProtoAddr "TCP6://[::1]:8080" = ("TCP6"%string, "[::1]:8080"%string, None) /\
  Mock.parseProtoAddr "TCP6://[::1]:8080" = ("TCP6"%string, "[::1]:8080"%string, None).
Proof.
  apply (proj1 (ParseProtoAddr_spec "TCP6://[::1]:8080") "TCP6"%string "[::1]:8080"%string).
  - reflexivity.
  - vm_compute. reflexivity.
  - discriminate.
  - vm_compute. reflexivity.
Defined.

(** C8, counterexample.  An address that ends in a newline has a scheme of
    the list and a rest that is not empty, and does not parse. *)
Lemma ParseProtoAddr_newline :
  let s := ("tcp://127.0.0.1:8080" +:+ Fold.LF)%string in
  s = ("tcp" +:+ "://" +:+ ("127.0.0.1:8080" +:+ Fold.LF))%string /\
  In "tcp"%string Fold.schemes /\
  ("127.0.0.1:8080" +:+ Fold.LF)%string <> EmptyString /\
  Csc.ParseProtoAddr s = (EmptyString, EmptyString, Some ErrInvalidCSIEndpoint) /\
  Mock.parseProtoAddr s = (EmptyString, EmptyString, Some (ErrInvalidAddress s)).
Proof.
  vm_compute. repeat split; auto. discriminate.
Qed.

(** The scheme [unixpacket] with the Kelvin sign for its [k] parses. *)
Lemma ParseProtoAddr_Kelvin :
  Csc.ParseProtoAddr ("unixpac" +:+ Fold.Kelvin +:+ "et:///run/csi.sock")
  = (("unixpac" +:+ Fold.Kelvin +:+ "et")%string, "/run/csi.sock"%string, None).
Proof. vm_compute. reflexivity. Qed.

(** * More properties *)

(** ** The piped connection, closed and not *)
Section PipeMoreFacts.
Import Net.

Lemma run_addr p tr p' : Pipe.run p tr p' -> Pipe.addr p' = Pipe.addr p.
Proof.
  induction 1 as [p|p e p1 tr p2 Hs Hr IH]; [reflexivity|].
  rewrite IH. destruct Hs as [p raddr timeout Hp|p c Hp Hin|p ret err p' Hp Ha|p Hp]; simpl.
  - reflexivity.
  - unfold Pipe.send. destruct (Pipe.closed p); reflexivity.
  - unfold Pipe.Accept in Ha.
    destruct (Pipe.sendq p); [destruct (Pipe.closed p); [|discriminate]|];
      injection Ha as <- <- <-; reflexivity.
  - reflexivity.
Qed.

(** X1.  Whatever happens to the bridge, dials, sends, accepts and closes,
    its address is the network [modcsi] and the name it was made with. *)
Theorem Addr_constant (name : string) (tr : list Pipe.event) (p : Pipe.pipeConn) :
  Pipe.run (Pipe.newPipeConn name) tr p -> Pipe.Addr p = ("modcsi"%string, name).
Proof.
  intros H. unfold Pipe.Addr. rewrite (run_addr _ _ _ H). reflexivity.
Qed.

(** X2.  As long as nobody closes the bridge no goroutine panics, in any
    order of dials, sends and accepts, and the bridge stays open. *)
Theorem no_close_no_panic (name : string) (tr : list Pipe.event) (p : Pipe.pipeConn) :
  Pipe.run (Pipe.newPipeConn name) tr p -> Pipe.quiet tr = true ->
  Pipe.panicked p = false /\ Pipe.closed p = false.
Proof.
  intros Hr Hq. split.
  - eapply run_quiet_alive; eauto.
  - destruct (run_balance _ _ _ Hr Hq eq_refl) as [Hc _]. exact Hc.
Qed.

Lemma run_panicked p tr p' : Pipe.run p tr p' -> Pipe.panicked p = true -> tr = [] /\ p' = p.
Proof.
  intros H Hp. destruct H as [p|p e p1 tr p2 Hs Hr]; [auto|].
  apply step_alive in Hs. congruence.
Qed.

Lemma run_closed_send p tr p' :
  Pipe.run p tr p' -> Pipe.closed p = true ->
  (exists c, In (Pipe.EvSend c) tr) -> Pipe.panicked p' = true.
Proof.
  induction 1 as [p|p e p1 tr p2 Hs Hr IH]; intros Hc [c Hin]; [destruct Hin|].
  assert (H1 : Pipe.closed p1 = true) by (eapply step_closed; eauto).
  destruct Hin as [->|Hin].
  - inversion Hs; subst.
    assert (Hp : Pipe.panicked (Pipe.send c p) = true).
    { unfold Pipe.send. rewrite Hc. reflexivity. }
    destruct (run_panicked _ _ _ Hr Hp) as [_ ->]. exact Hp.
  - apply IH; eauto.
Qed.

(** X3.  A dial on a bridge that has been closed starts a goroutine whose
    send panics: the send on the closed channel, and with it every run in
    which that goroutine reaches its send, ends with the process gone. *)
Theorem send_after_close_panics (name : string) (tr : list Pipe.event) (p : Pipe.pipeConn)
        (raddr : string) (timeout : Z) :
  Pipe.run (Pipe.newPipeConn name) tr p -> In Pipe.EvClose tr ->
  let p1 := snd (Pipe.Dial raddr timeout p) in
  let r := mkConn (Pipe.pipes p) true in
  In r (Pipe.started p1) /\
  Pipe.panicked (Pipe.send r p1) = true /\
  (forall tr' p', Pipe.run p1 tr' p' -> In (Pipe.EvSend r) tr' -> Pipe.panicked p' = true).
Proof.
  intros Hr Hc. cbn zeta.
  assert (C : Pipe.closed p = true) by (eapply run_closed; eauto).
  split; [simpl; apply in_or_app; right; left; reflexivity|]. split.
  - unfold Pipe.send. simpl. rewrite C. reflexivity.
  - intros tr' p' Hr' Hin. eapply run_closed_send; eauto.
Qed.

Lemma sent_app t1 t2 : PipeMore.sent (t1 ++ t2) = PipeMore.sent t1 ++ PipeMore.sent t2.
Proof.
  induction t1 as [|e t1 IH]; [reflexivity|].
  destruct e; simpl; rewrite IH; reflexivity.
Qed.

Lemma run_waiting p tr p' :
  Pipe.run p tr p' -> Pipe.quiet tr = true -> Pipe.closed p = false ->
  (length (Pipe.sendq p') + length (Pipe.accepted tr)
   = length (Pipe.sendq p) + length (PipeMore.sent tr))%nat.
Proof.
  induction 1 as [p|p e p1 tr p2 Hs Hr IH]; intros Hq Hc; [simpl; lia|].
  simpl in Hq. apply andb_true_iff in Hq as [He Hq]. apply negb_true_iff in He.
  destruct (step_open _ _ _ Hs He Hc) as [Hc1 _].
  specialize (IH Hq Hc1).
  destruct Hs as [p raddr timeout Hp|p c Hp Hin|p ret err p' Hp Ha|p Hp];
    simpl in *; try discriminate.
  - exact IH.
  - unfold Pipe.send in IH. rewrite Hc in IH. simpl in IH. rewrite length_app in IH.
    simpl in IH. lia.
  - unfold Pipe.Accept in Ha.
    destruct (Pipe.sendq p) as [|c q] eqn:E; [rewrite Hc in Ha; discriminate|].
    injection Ha as <- <- <-. simpl in *. lia.
Qed.

(** X4.  Closing the bridge a second time panics.  Closing it for the
    first time panics exactly when a goroutine of a dial waits in its send,
    that is when more sends have been reached than streams accepted. *)
Theorem Close_panics (name : string) (tr : list Pipe.event) (p : Pipe.pipeConn) :
  Pipe.run (Pipe.newPipeConn name) tr p ->
  (In Pipe.EvClose tr -> Pipe.panicked (snd (Pipe.Close p)) = true) /\
  (Pipe.quiet tr = true ->
   (Pipe.panicked (snd (Pipe.Close p)) = true
    <-> (length (Pipe.accepted tr) < length (PipeMore.sent tr))%nat)).
Proof.
  intros Hr. split.
  - intros Hc. assert (C : Pipe.closed p = true) by (eapply run_closed; eauto).
    simpl. rewrite C. destruct (Pipe.panicked p); reflexivity.
  - intros Hq. pose proof (run_waiting _ _ _ Hr Hq eq_refl) as HW. simpl in HW.
    assert (Hp : Pipe.panicked p = false) by (eapply run_quiet_alive; eauto).
    destruct (run_balance _ _ _ Hr Hq eq_refl) as [Hc _].
    simpl. rewrite Hp, Hc. simpl.
    destruct (Pipe.sendq p); simpl in *; split; intros; try discriminate; try lia; reflexivity.
Qed.
Lemma Addr_constant_witness :
  Pipe.Addr (snd (Pipe.Close (snd (Pipe.Dial "mock" 5 (Pipe.newPipeConn "mock")))))
  = ("modcsi"%string, "mock"%string).
Proof.
  apply (Addr_constant "mock"
           [Pipe.EvDial "mock" 5 (Some (mkConn 0 false)) None; Pipe.EvClose]).
  eapply Pipe.RunCons; [apply (Pipe.StepDial (Pipe.newPipeConn "mock") "mock" 5); reflexivity|].
  eapply Pipe.RunCons; [apply Pipe.StepClose; reflexivity|]. apply Pipe.RunNil.
Defined.

Lemma no_close_no_panic_witness :
  Pipe.panicked (Pipe.mkPipeConn "mock" false [] [] 1 false) = false /\
  Pipe.closed (Pipe.mkPipeConn "mock" false [] [] 1 false) = false.
Proof.
  apply (no_close_no_panic "mock"
           [Pipe.EvDial "mock" 0 (Some (mkConn 0 false)) None;
            Pipe.EvSend (mkConn 0 true);
            Pipe.EvAccept (Some (mkConn 0 true)) None]); [|reflexivity].
  eapply Pipe.RunCons;
    [apply (Pipe.StepDial (Pipe.newPipeConn "mock") "mock" 0); reflexivity|].
  eapply Pipe.RunCons; [apply Pipe.StepSend; [reflexivity|left; reflexivity]|].
  eapply Pipe.RunCons; [apply Pipe.StepAccept; reflexivity|].
  apply Pipe.RunNil.
Defined.

Lemma send_after_close_panics_witness :
  Pipe.panicked
    (Pipe.send (mkConn 0 true)
               (snd (Pipe.Dial "mock" 0 (snd (Pipe.Close (Pipe.newPipeConn "mock"))))))
  = true.
Proof.
  apply (send_after_close_panics "mock" [Pipe.EvClose]).
  - eapply Pipe.RunCons; [apply Pipe.StepClose; reflexivity|]. apply Pipe.RunNil.
  - left. reflexivity.
Defined.

Lemma Close_panics_witness :
  Pipe.panicked
    (snd (Pipe.Close (Pipe.mkPipeConn "mock" false [] [mkConn 0 true] 1 false))) = true.
Proof.
  apply (proj2 (Close_panics "mock"
                  [Pipe.EvDial "mock" 0 (Some (mkConn 0 false)) None;
                   Pipe.EvSend (mkConn 0 true)] _
                  ltac:(eapply Pipe.RunCons;
                        [apply (Pipe.StepDial (Pipe.newPipeConn "mock") "mock" 0); reflexivity|];
                        eapply Pipe.RunCons;
                        [apply Pipe.StepSend; [reflexivity|left; reflexivity]|];
                        apply Pipe.RunNil))
               eq_refl).
  simpl. lia.
Defined.

End PipeMoreFacts.

(** ** The loading of the shared objects *)
Section LoadFacts.
Import Gocsi.
Variables Context X : Type.
Variable Getenv : string -> string.
Variable csvRead : string -> list string * option error.
Variable pluginOpen : string -> result (Plugin Context X).

Local Abbreviation Init := (Init Context X Getenv csvRead pluginOpen).
Local Abbreviation loadSharedObjects := (loadSharedObjects Context X Getenv csvRead pluginOpen).
Local Abbreviation loadEach := (loadEach Context X pluginOpen).
Local Abbreviation exports := (Load.exports Context X pluginOpen).
Local Abbreviation recordAll := (Load.recordAll Context X).
Local Abbreviation pkg := (pkg Context X).
Local Abbreviation ctor := (ctor Context X).

Lemma record_lookup (eps ctors : gmap string ctor) (k : string) :
  record Context X eps ctors !! k
  = match eps !! k with
    | Some v => Some v
    | None => ctors !! k
    end.
Proof.
  rewrite record_union, lookup_union.
  destruct (eps !! k), (ctors !! k); reflexivity.
Qed.

Lemma loadEach_step so rest (ctors : gmap string ctor) :
  loadEach (so :: rest) ctors
  = match exports so with
    | Err e => (Some e, ctors)
    | Ok eps => loadEach rest (record Context X eps ctors)
    end.
Proof.
  unfold Load.exports. cbn [Gocsi.loadEach].
  destruct (pluginOpen so) as [p|e]; [|reflexivity].
  destruct (Lookup _ _ p "Endpoints") as [[[eps|]|T]|e]; reflexivity.
Qed.

Lemma loadEach_all sos maps : forall ctors : gmap string ctor,
  Forall2 (fun so eps => exports so = Ok eps) sos maps ->
  loadEach sos ctors = (None, recordAll maps ctors).
Proof.
  intros ctors H. revert ctors.
  induction H as [|so eps sos maps Hso _ IH]; intros ctors; [reflexivity|].
  rewrite loadEach_step, Hso. apply IH.
Qed.

Lemma loadEach_fail pre maps so e post : forall ctors : gmap string ctor,
  Forall2 (fun so eps => exports so = Ok eps) pre maps ->
  exports so = Err e ->
  loadEach (pre ++ so :: post) ctors = (Some e, recordAll maps ctors).
Proof.
  intros ctors H He. revert ctors.
  induction H as [|so' eps sos maps Hso _ IH]; intros ctors.
  - simpl app. rewrite loadEach_step, He. reflexivity.
  - simpl app. rewrite loadEach_step, Hso. apply IH.
Qed.

Lemma loadSharedObjects_clean ctx (s : pkg) sos err :
  csvRead (Getenv "CSI_PLUGINS") = (sos, err) -> Load.cleanEnd err ->
  loadSharedObjects ctx s
  = (fst (loadEach sos (endpointCtors _ _ s)),
     mkPkg (initOnce _ _ s) (snd (loadEach sos (endpointCtors _ _ s))) (S (loads _ _ s))).
Proof.
  intros Hcsv Hc. unfold Gocsi.loadSharedObjects. rewrite Hcsv.
  assert (match err with Some e => negb (isEOF e) | None => false end = false) as ->.
  { destruct err as [e|]; [|reflexivity]. simpl in Hc. rewrite Hc. reflexivity. }
  destruct sos as [|so rest]; [reflexivity|].
  cbn [length Nat.eqb]. cbn [endpointCtors initOnce loads].
  destruct (loadEach (so :: rest) (endpointCtors _ _ s)). reflexivity.
Qed.

(** X5.  When the list of shared objects is read and every one of them
    exports its providers, the loading reports no error and the registry
    holds what they export, recorded in the order of the list over what
    was registered before. *)
Theorem load_all ctx (s : pkg) sos err maps :
  csvRead (Getenv "CSI_PLUGINS") = (sos, err) -> Load.cleanEnd err ->
  Forall2 (fun so eps => exports so = Ok eps) sos maps ->
  loadSharedObjects ctx s
  = (None, mkPkg (initOnce _ _ s) (recordAll maps (endpointCtors _ _ s)) (S (loads _ _ s))).
Proof.
  intros Hcsv Hc H. rewrite (loadSharedObjects_clean ctx s sos err Hcsv Hc).
  rewrite (loadEach_all sos maps _ H). reflexivity.
Qed.

(** X6.  The loading stops at the first shared object that cannot be opened
    or does not export a map of providers: it returns the error of that
    one, keeps what the shared objects before it exported, and does not
    depend on those after it. *)
Theorem load_fail_fast ctx (s : pkg) pre so post err maps e :
  csvRead (Getenv "CSI_PLUGINS") = (pre ++ so :: post, err) -> Load.cleanEnd err ->
  Forall2 (fun so eps => exports so = Ok eps) pre maps ->
  exports so = Err e ->
  loadSharedObjects ctx s
  = (Some e, mkPkg (initOnce _ _ s) (recordAll maps (endpointCtors _ _ s)) (S (loads _ _ s))).
Proof.
  intros Hcsv Hc H He. rewrite (loadSharedObjects_clean ctx s _ err Hcsv Hc).
  rewrite (loadEach_fail pre maps so e post _ H He). reflexivity.
Qed.

(** X7.  After several shared objects have been recorded, a name is bound to
    the constructor of the last of them that exports it; a name none of
    them exports keeps the constructor it had. *)
Theorem recordAll_lookup (maps : list (gmap string ctor)) (ctors : gmap string ctor) (k : string) :
  (forall m1 eps m2 v,
      maps = m1 ++ eps :: m2 -> eps !! k = Some v ->
      Forall (fun m => m !! k = None) m2 ->
      recordAll maps ctors !! k = Some v) /\
  (Forall (fun m => m !! k = None) maps -> recordAll maps ctors !! k = ctors !! k).
Proof.
  assert (N : forall ms c, Forall (fun m : gmap string ctor => m !! k = None) ms ->
                           recordAll ms c !! k = c !! k).
  { intros ms c H. revert c. induction H as [|m ms Hm _ IH]; intros c; [reflexivity|].
    unfold Load.recordAll in *. cbn [foldl]. rewrite IH, record_lookup, Hm. reflexivity. }
  split; [|apply N].
  intros m1 eps m2 v -> Hv H2.
  unfold Load.recordAll. rewrite foldl_app. cbn [foldl].
  fold (recordAll m1 ctors). 
  change (foldl _ ?c m2) with (recordAll m2 c).
  rewrite (N m2 _ H2), record_lookup, Hv. reflexivity.
Qed.

Lemma loadEach_none sos : forall ctors : gmap string ctor,
  fst (loadEach sos ctors) = None ->
  exists maps, Forall2 (fun so eps => exports so = Ok eps) sos maps.
Proof.
  induction sos as [|so rest IH]; intros ctors H.
  - exists []. constructor.
  - rewrite loadEach_step in H. destruct (exports so) as [eps|e] eqn:E; [|discriminate].
    destruct (IH _ H) as [maps Hm]. exists (eps :: maps). constructor; assumption.
Qed.

(** X8.  The first [Init] returns no error exactly when the reader of the
    list ends without error, or at the end of its input, and every shared
    object of the list exports a map of providers. *)
Theorem Init_succeeds_iff ctx (s : pkg) sos err :
  initOnce _ _ s = false ->
  csvRead (Getenv "CSI_PLUGINS") = (sos, err) ->
  (fst (Init ctx s) = None
   <-> Load.cleanEnd err /\
       exists maps, Forall2 (fun so eps => exports so = Ok eps) sos maps).
Proof.
  intros Hi Hcsv.
  assert (HI : fst (Init ctx s) = fst (loadSharedObjects ctx s)).
  { unfold Gocsi.Init. rewrite Hi. destruct (loadSharedObjects ctx s). reflexivity. }
  rewrite HI. split.
  - intros H.
    assert (Hc : Load.cleanEnd err).
    { destruct err as [e|]; [|exact I]. simpl.
      destruct (isEOF e) eqn:Ee; [reflexivity|].
      unfold Gocsi.loadSharedObjects in H. rewrite Hcsv in H. simpl in H.
      rewrite Ee in H. discriminate. }
    split; [exact Hc|].
    rewrite (loadSharedObjects_clean ctx s sos err Hcsv Hc) in H.
    apply (loadEach_none sos _ H).
  - intros [Hc [maps Hm]].
    rewrite (loadSharedObjects_clean ctx s sos err Hcsv Hc).
    rewrite (loadEach_all sos maps _ Hm). reflexivity.
Qed.

Lemma record_keeps (eps ctors : gmap string ctor) k :
  is_Some (ctors !! k) -> is_Some (record Context X eps ctors !! k).
Proof.
  intros [v Hv]. rewrite record_lookup, Hv. destruct (eps !! k); eauto.
Qed.

Lemma loadEach_keeps sos : forall (ctors : gmap string ctor) k,
  is_Some (ctors !! k) -> is_Some (snd (loadEach sos ctors) !! k).
Proof.
  induction sos as [|so rest IH]; intros ctors k H; [exact H|].
  rewrite loadEach_step. destruct (exports so) as [eps|e]; [|exact H].
  apply IH, record_keeps, H.
Qed.

(** X9.  [Init] never drops a provider: a name that is registered before
    the call is registered after it, whether the loading succeeds or not. *)
Theorem Init_keeps_providers ctx (s : pkg) (k : string) :
  is_Some (endpointCtors _ _ s !! k) ->
  is_Some (endpointCtors _ _ (snd (Init ctx s)) !! k).
Proof.
  intros H. unfold Gocsi.Init. destruct (initOnce _ _ s); [exact H|].
  unfold Gocsi.loadSharedObjects.
  destruct (csvRead (Getenv "CSI_PLUGINS")) as [sos err].
  destruct (match err with Some e => negb (isEOF e) | None => false end); [exact H|].
  destruct (length sos =? 0)%nat; [exact H|].
  cbn [endpointCtors initOnce loads].
  pose proof (loadEach_keeps sos (endpointCtors _ _ s) k H) as HK.
  destruct (loadEach sos (endpointCtors _ _ s)) as [r m]. exact HK.
Qed.

End LoadFacts.

Section LoadWitnesses.
Import Gocsi Gocsi.Sample.

Lemma load_all_witness :
  fst (loadSharedObjects unit nat oneProvider (Demo.csvList ["mock.so"; "two.so"]%string)
                         pluginOpen tt fresh) = None.
Proof.
  rewrite (load_all unit nat oneProvider (Demo.csvList ["mock.so"; "two.so"]%string)
                    pluginOpen tt fresh ["mock.so"; "two.so"]%string None
                    [ {[ "mock"%string := mockCtor ]};
                      <[ "MOCK"%string := MOCKCtor ]> {[ "mock"%string := mockCtor ]} ]).
  - reflexivity.
  - reflexivity.
  - exact I.
  - repeat constructor.
Defined.

Lemma load_fail_fast_witness :
  fst (loadSharedObjects unit nat oneProvider (Demo.csvList ["mock.so"; "missing.so"; "two.so"]%string)
                         pluginOpen tt fresh)
  = Some (External "plugin.Open: no such file").
Proof.
  rewrite (load_fail_fast unit nat oneProvider
             (Demo.csvList ["mock.so"; "missing.so"; "two.so"]%string)
             pluginOpen tt fresh ["mock.so"%string] "missing.so"%string ["two.so"%string] None
             [ {[ "mock"%string := mockCtor ]} ] (External "plugin.Open: no such file")).
  - reflexivity.
  - reflexivity.
  - exact I.
  - repeat constructor.
  - reflexivity.
Defined.

Lemma recordAll_lookup_witness :
  Load.recordAll unit nat
    [ {[ "mock"%string := MOCKCtor ]}; {[ "mock"%string := mockCtor ]} ] ∅ !! "mock"%string
  = Some mockCtor.
Proof.
  apply (proj1 (recordAll_lookup unit nat
                  [ {[ "mock"%string := MOCKCtor ]}; {[ "mock"%string := mockCtor ]} ]
                  ∅ "mock"%string)
               [ {[ "mock"%string := MOCKCtor ]} ] {[ "mock"%string := mockCtor ]} []).
  - reflexivity.
  - apply lookup_singleton_eq.
  - constructor.
Defined.

Lemma Init_succeeds_iff_witness :
  fst (Init unit nat oneProvider csvRead pluginOpen tt fresh) = None.
Proof.
  apply (Init_succeeds_iff unit nat oneProvider csvRead pluginOpen tt fresh
                           ["mock.so"%string] None eq_refl eq_refl).
  split; [exact I|]. exists [ {[ "mock"%string := mockCtor ]} ]. repeat constructor.
Defined.

Lemma Init_keeps_providers_witness :
  is_Some (endpointCtors _ _
             (snd (Init unit nat noSuchFile csvRead pluginOpen tt
                        (mkPkg false {[ "mock"%string := mockCtor ]} 0)))
           !! "mock"%string).
Proof.
  apply (Init_keeps_providers unit nat noSuchFile csvRead pluginOpen tt
           (mkPkg false {[ "mock"%string := mockCtor ]} 0) "mock"%string).
  exists mockCtor. apply lookup_singleton_eq.
Defined.

Lemma Init_loads_once_witness :
  fst (InitTimes unit nat noSuchFile csvRead pluginOpen 3 tt fresh)
  = [Some (External "plugin.Open: no such file"); None; None].
Proof.
  rewrite (Init_loads_once unit nat noSuchFile csvRead pluginOpen 2 tt fresh eq_refl).
  reflexivity.
Defined.

End LoadWitnesses.

(** ** What [New] returns *)
Section NewFacts.
Import Gocsi.
Variables Context X : Type.
Variable Getenv : string -> string.
Variable csvRead : string -> list string * option error.
Variable pluginOpen : string -> result (Plugin Context X).
Variable EqualFold : string -> string -> bool.
Variable rangeOrder : gmap string (ctor Context X) -> list (string * ctor Context X).

Local Abbreviation Init := (Init Context X Getenv csvRead pluginOpen).
Local Abbreviation New := (New Context X Getenv csvRead pluginOpen EqualFold rangeOrder).
Local Abbreviation lookupCtor := (lookupCtor Context X EqualFold).
Local Abbreviation construct := (construct Context X).
Local Abbreviation pkg := (pkg Context X).

Lemma lookupCtor_cases name entries :
  (exists k v, In (k, v) entries /\ EqualFold k name = true /\
               lookupCtor name entries = construct k v) \/
  ((forall k v, In (k, v) entries -> EqualFold k name = false) /\
   lookupCtor name entries = Err errInvalidEndpointProvider).
Proof.
  induction entries as [|[k v] rest IH]; simpl.
  - right. split; [intros k v []|reflexivity].
  - destruct (EqualFold k name) eqn:E.
    + left. exists k, v. split; [left; reflexivity|]. split; [exact E|reflexivity].
    + destruct IH as [(k' & v' & Hin & HE & HL)|[Hno HL]].
      * left. exists k', v'. split; [right; exact Hin|]. split; [exact HE|exact HL].
      * right. split; [|exact HL].
        intros k' v' [H|H]; [injection H as <- <-; exact E|eauto].
Qed.

(** X11.  When [Init] returns no error, [New] leaves the package as [Init]
    left it and, in whatever order the registry is gone through, returns
    either what the constructor of some registered name makes, a name that
    equals the request but for case, or, when no registered name does,
    [errInvalidEndpointProvider]. *)
Theorem New_result ctx (name : string) (s s' : pkg) :
  (forall m, rangeOrder m ≡ₚ map_to_list m) ->
  Init ctx s = (None, s') ->
  snd (New ctx name s) = s' /\
  ((exists k v, endpointCtors _ _ s' !! k = Some v /\ EqualFold k name = true /\
                fst (New ctx name s) = construct k v) \/
   ((forall k, is_Some (endpointCtors _ _ s' !! k) -> EqualFold k name = false) /\
    fst (New ctx name s) = Err errInvalidEndpointProvider)).
Proof.
  intros Hperm HI. unfold Gocsi.New. rewrite HI. split; [reflexivity|]. cbn [fst].
  assert (Hin : forall k v, In (k, v) (rangeOrder (endpointCtors _ _ s'))
                            <-> endpointCtors _ _ s' !! k = Some v).
  { intros k v. rewrite <- list_elem_of_In, Hperm. apply elem_of_map_to_list. }
  destruct (lookupCtor_cases name (rangeOrder (endpointCtors _ _ s')))
    as [(k & v & Hk & HE & HL)|[Hno HL]].
  - left. exists k, v. split; [apply Hin; exact Hk|]. split; [exact HE|exact HL].
  - right. split; [|exact HL]. intros k [v Hv]. apply (Hno k v), Hin, Hv.
Qed.

(** X12.  An endpoint that [New] returns carries a registered name that
    equals the request but for case (not the request itself), is bound to
    the Endpoint that the constructor of that name made, and owns a new
    piped connection of that name: its address is [modcsi] and the name,
    and an accept on it waits. *)
Theorem New_endpoint ctx (name : string) (s s' : pkg) (e : endpoint Context X) :
  (forall m, rangeOrder m ≡ₚ map_to_list m) ->
  New ctx name s = (Ok e, s') ->
  Init ctx s = (None, s') /\
  EqualFold (Gocsi.name _ _ e) name = true /\
  (exists v, endpointCtors _ _ s' !! Gocsi.name _ _ e = Some v /\
             v tt = IsEndpoint (endp _ _ e)) /\
  conn _ _ e = Pipe.newPipeConn (Gocsi.name _ _ e) /\
  Pipe.Addr (conn _ _ e) = ("modcsi"%string, Gocsi.name _ _ e) /\
  Pipe.Accept (conn _ _ e) = None.
Proof.
  intros Hperm HN.
  assert (HI : Init ctx s = (None, s')).
  { unfold Gocsi.New in HN. destruct (Init ctx s) as [[err|] s1]; [discriminate|].
    injection HN as _ <-. reflexivity. }
  split; [exact HI|].
  assert (HL0 : lookupCtor name (rangeOrder (endpointCtors _ _ s')) = Ok e).
  { unfold Gocsi.New in HN. rewrite HI in HN. injection HN as ->. reflexivity. }
  destruct (lookupCtor_cases name (rangeOrder (endpointCtors _ _ s')))
    as [(k & v & Hk & HE & HL)|[_ HL]]; rewrite HL0 in HL; [|discriminate].
  assert (Hk' : endpointCtors _ _ s' !! k = Some v).
  { apply elem_of_map_to_list. rewrite <- Hperm. apply list_elem_of_In. exact Hk. }
  unfold Gocsi.construct in HL. destruct (v tt) as [ep|T] eqn:Ev; [|discriminate].
  injection HL as ->. cbn [Gocsi.name endp conn].
  split; [exact HE|]. split; [exists v; auto|]. repeat split.
Qed.

(** X13.  When the loading fails, the call of [New] that ran it returns the
    error of the loading; a later call of [New] does not load again and
    goes on to look the name up in what is registered. *)
Theorem New_after_failed_load ctx (name name' : string) (s s' : pkg) (e : error) :
  Init ctx s = (Some e, s') ->
  New ctx name s = (Err e, s') /\
  New ctx name' s' = (lookupCtor name' (rangeOrder (endpointCtors _ _ s')), s').
Proof.
  intros HI. split.
  - unfold Gocsi.New. rewrite HI. reflexivity.
  - assert (H : initOnce _ _ s' = true).
    { pose proof (Init_sets_once Context X Getenv csvRead pluginOpen ctx s) as H.
      rewrite HI in H. exact H. }
    unfold Gocsi.New, Gocsi.Init. rewrite H. reflexivity.
Qed.

End NewFacts.

Section NewWitnesses.
Import Gocsi Gocsi.Sample.

Lemma New_result_witness :
  snd (New unit nat oneProvider csvRead pluginOpen EqualFoldASCII map_to_list tt "Mock" fresh)
  = mkPkg true {[ "mock"%string := mockCtor ]} 1.
Proof.
  apply (New_result unit nat oneProvider csvRead pluginOpen EqualFoldASCII map_to_list
                    tt "Mock"%string fresh).
  - intros m. reflexivity.
  - apply Init_oneProvider.
Defined.

Lemma New_sample :
  New unit nat oneProvider csvRead pluginOpen EqualFoldASCII map_to_list tt "Mock" fresh
  = (Ok (mkendpoint "mock" quietEndpoint (Pipe.newPipeConn "mock")),
     mkPkg true {[ "mock"%string := mockCtor ]} 1).
Proof. vm_compute. reflexivity. Qed.

Lemma New_endpoint_witness :
  EqualFoldASCII "mock" "Mock" = true.
Proof.
  apply (New_endpoint unit nat oneProvider csvRead pluginOpen EqualFoldASCII map_to_list
                      tt "Mock"%string fresh
                      (mkPkg true {[ "mock"%string := mockCtor ]} 1)
                      (mkendpoint "mock" quietEndpoint (Pipe.newPipeConn "mock"))).
  - intros m. reflexivity.
  - apply New_sample.
Defined.

Lemma Init_noSuchFile :
  Init unit nat noSuchFile csvRead pluginOpen tt fresh
  = (Some (External "plugin.Open: no such file"), mkPkg true ∅ 1).
Proof. vm_compute. reflexivity. Qed.

Lemma New_after_failed_load_witness :
  New unit nat noSuchFile csvRead pluginOpen EqualFoldASCII map_to_list tt "mock" fresh
  = (Err (External "plugin.Open: no such file"), mkPkg true ∅ 1).
Proof.
  apply (New_after_failed_load unit nat noSuchFile csvRead pluginOpen EqualFoldASCII
                               map_to_list tt "mock"%string "mock"%string fresh
                               (mkPkg true ∅ 1) (External "plugin.Open: no such file")
                               Init_noSuchFile).
Defined.

End NewWitnesses.

(** ** The methods of the endpoint of [gocsi] *)
Section EndpointMoreFacts.
Import Gocsi.
Variables Context request response ClientConn X : Type.
Variable DialContext :
  Context -> string -> dialer -> world X -> result ClientConn * world X.
Variable Invoke :
  ClientConn -> method -> Context -> request -> world X ->
  (option response * option error) * world X.

Local Abbreviation serve := (serve Context request response ClientConn X DialContext Invoke).
Local Abbreviation dial := (dial Context ClientConn X DialContext).

Lemma serve_dial (m : method) (ctx : Context) (req : request)
      (e : endpoint Context X) (x : X) :
  serve m ctx req e x
  = match dial ctx e x with
    | (Err err, s) => ((None, Some err), s)
    | (Ok c, (e', x')) => onWorld Context X (Invoke c m ctx req) e' x'
    end.
Proof.
  destruct m; simpl;
    unfold CreateVolume, DeleteVolume, ControllerPublishVolume,
      ControllerUnpublishVolume, ValidateVolumeCapabilities, ListVolumes,
      GetCapacity, ControllerGetCapabilities, GetSupportedVersions, GetPluginInfo,
      NodePublishVolume, NodeUnpublishVolume, GetNodeID, ProbeNode,
      NodeGetCapabilities, dialController, dialIdentity, dialNode;
    destruct (dial ctx e x) as [[c|err] [e' x']]; reflexivity.
Qed.

Lemma onWorld_identity (A : Type) (f : world X -> A * world X) (e : endpoint Context X) (x : X) :
  name _ _ (fst (snd (onWorld Context X f e x))) = name _ _ e /\
  endp _ _ (fst (snd (onWorld Context X f e x))) = endp _ _ e.
Proof.
  unfold onWorld. destruct (f (conn _ _ e, x)) as [a [c x']]. split; reflexivity.
Qed.

(** X14.  No method of the endpoint of [gocsi], [Init], [Serve], [Shutdown]
    or a forwarded call, changes its name or the Endpoint it is bound to. *)
Theorem methods_keep_identity (ctx : Context) (e : endpoint Context X) (x : X) :
  let same (e' : endpoint Context X) :=
      name _ _ e' = name _ _ e /\ endp _ _ e' = endp _ _ e in
  same (fst (snd (endpoint_Init Context X ctx e x))) /\
  (forall li, same (fst (snd (endpoint_Serve Context X ctx li e x)))) /\
  same (fst (snd (endpoint_Shutdown Context X ctx e x))) /\
  (forall m req, same (fst (snd (serve m ctx req e x)))).
Proof.
  cbn zeta. split; [apply onWorld_identity|]. split; [intros li; apply onWorld_identity|].
  split.
  - rewrite Shutdown_order. split; reflexivity.
  - intros m req. rewrite serve_dial. unfold Gocsi.dial.
    pose proof (onWorld_identity _ (DialContext ctx (name _ _ e) Pipe.Dial) e x) as Hd.
    destruct (onWorld Context X (DialContext ctx (name _ _ e) Pipe.Dial) e x)
      as [[c|err] [e' x']]; cbn [fst snd] in *; [|exact Hd].
    destruct (onWorld_identity _ (Invoke c m ctx req) e' x') as [H1 H2].
    destruct Hd as [H3 H4]. split; congruence.
Qed.

(** X15.  [Shutdown] of the endpoint of [gocsi] panics exactly when the
    bound Endpoint's [Shutdown] leaves the piped connection closed, or with
    a goroutine of a dial waiting in its send, or has panicked itself.
    When it does not panic it returns no error, whatever the bound
    [Shutdown] returned, and leaves the piped connection closed, so that
    an accept on it returns no stream and no error at once. *)
Theorem Shutdown_closes (ctx : Context) (e : endpoint Context X) (x : X) :
  let c1 := fst (snd (ep_Shutdown _ _ (endp _ _ e) ctx (conn _ _ e, x))) in
  let e' := fst (snd (endpoint_Shutdown Context X ctx e x)) in
  (Pipe.panicked (conn _ _ e') = true <->
   Pipe.panicked c1 = true \/ Pipe.closed c1 = true \/ Pipe.sendq c1 <> []) /\
  (Pipe.panicked (conn _ _ e') = false ->
   fst (endpoint_Shutdown Context X ctx e x) = None /\
   Pipe.closed (conn _ _ e') = true /\
   Pipe.Accept (conn _ _ e') = Some ((None, None), conn _ _ e')).
Proof.
  cbn zeta. rewrite Shutdown_order. cbn [fst snd conn].
  destruct (ep_Shutdown _ _ (endp _ _ e) ctx (conn _ _ e, x)) as [r [c x1]].
  cbn [fst snd]. split.
  - cbn [Pipe.Close snd Pipe.panicked]. rewrite !orb_true_iff. split.
    + intros [[H|H]|H]; [left; exact H|right; left; exact H|right; right].
      destruct (Pipe.sendq c); [discriminate|intros E; discriminate].
    + intros [H|[H|H]]; [left; left; exact H|left; right; exact H|right].
      destruct (Pipe.sendq c); [contradiction|reflexivity].
  - intros _. repeat split.
Qed.

(** X16.  When the bound Endpoint's [Shutdown] leaves the piped connection
    as it is, a second [Shutdown] of the endpoint of [gocsi] closes the
    closed channel again, and panics. *)
Theorem Shutdown_twice_panics (ctx : Context) (e : endpoint Context X) (x : X) :
  (forall c y, fst (snd (ep_Shutdown _ _ (endp _ _ e) ctx (c, y))) = c) ->
  let s1 := snd (endpoint_Shutdown Context X ctx e x) in
  let s2 := snd (endpoint_Shutdown Context X ctx (fst s1) (snd s1)) in
  Pipe.panicked (conn _ _ (fst s2)) = true.
Proof.
  intros Hkeep. cbn zeta. rewrite !Shutdown_order. cbn [fst snd conn endp name].
  rewrite !Hkeep. cbn [Pipe.Close snd Pipe.panicked Pipe.closed].
  rewrite orb_true_r. reflexivity.
Qed.

End EndpointMoreFacts.

Lemma Shutdown_closes_witness :
  fst (Gocsi.endpoint_Shutdown unit nat tt
         (Gocsi.mkendpoint "mock" Gocsi.Sample.quietEndpoint (Pipe.newPipeConn "mock")) 0%nat)
  = None /\
  Pipe.Accept
    (Gocsi.conn _ _
       (fst (snd (Gocsi.endpoint_Shutdown unit nat tt
                    (Gocsi.mkendpoint "mock" Gocsi.Sample.quietEndpoint
                                      (Pipe.newPipeConn "mock")) 0%nat))))
  = Some ((None, None), snd (Pipe.Close (Pipe.newPipeConn "mock"))).
Proof.
  destruct (proj2 (Shutdown_closes unit nat tt
                     (Gocsi.mkendpoint "mock" Gocsi.Sample.quietEndpoint
                                       (Pipe.newPipeConn "mock")) 0%nat) eq_refl)
    as (H1 & _ & H3).
  split; [exact H1|exact H3].
Defined.

Lemma Shutdown_twice_panics_witness :
  Pipe.panicked
    (Gocsi.conn _ _
       (fst (snd (Gocsi.endpoint_Shutdown unit nat tt
                    (fst (snd (Gocsi.endpoint_Shutdown unit nat tt
                                 (Gocsi.mkendpoint "mock" Gocsi.Sample.quietEndpoint
                                                   (Pipe.newPipeConn "mock")) 0%nat)))
                    (snd (snd (Gocsi.endpoint_Shutdown unit nat tt
                                 (Gocsi.mkendpoint "mock" Gocsi.Sample.quietEndpoint
                                                   (Pipe.newPipeConn "mock")) 0%nat)))))))
  = true.
Proof.
  apply (Shutdown_twice_panics unit nat tt
           (Gocsi.mkendpoint "mock" Gocsi.Sample.quietEndpoint (Pipe.newPipeConn "mock"))
           0%nat).
  intros c y. reflexivity.
Defined.

(** ** The parsers, read backwards *)
Section AddressMoreFacts.
Local Open Scope N_scope.

Lemma search_some a t starts i th :
  Regexp.search a t starts = Some (i, th) ->
  In i starts /\ In th (Regexp.run a t (i, [])).
Proof.
  induction starts as [|k rest IH]; [discriminate|]. simpl.
  destruct (Regexp.run a t (k, [])) as [|th' l] eqn:E.
  - intros H. destruct (IH H). auto.
  - intros H. injection H as <- <-. split; [left; reflexivity|].
    rewrite E. left. reflexivity.
Qed.

Lemma find_addrRX_inv s m :
  Regexp.FindStringSubmatch addrRX 2 s = Some m ->
  exists n, Fold.parsesAt (Regexp.bytes s) n /\
            m = [s; Regexp.ofBytes (take n (Regexp.bytes s));
                 Regexp.ofBytes (drop (n + 3) (Regexp.bytes s))].
Proof.
  intros H.
  assert (Hn : exists n, Fold.parsesAt (Regexp.bytes s) n).
  { unfold Regexp.FindStringSubmatch in H.
    destruct (Regexp.search addrRX (Regexp.bytes s) _) as [[i [j c]]|] eqn:E; [|discriminate].
    apply search_some in E as [_ E]. apply addrRX_sound in E as (_ & n & Hn & _).
    exists n. exact Hn. }
  destruct Hn as [n Hn]. exists n. split; [exact Hn|].
  rewrite (proj1 (find_addrRX s) n Hn) in H. injection H as <-. reflexivity.
Qed.

Lemma scheme_chars w : In w Fold.schemes -> Forall (fun c => c <> 0x3A) (Regexp.bytes w).
Proof.
  intros Hw. simpl in Hw.
  destruct Hw as [<-|[<-|[<-|[<-|[<-|[<-|[<-|[<-|[<-|[<-|[<-|[<-|[]]]]]]]]]]]]];
    vm_compute; repeat constructor; discriminate.
Qed.

Lemma parsesAt_no_colon s n :
  Fold.parsesAt (Regexp.bytes s) n ->
  ~ In 0x3A (Regexp.bytes (Regexp.ofBytes (take n (Regexp.bytes s)))).
Proof.
  intros ((w & Hw & Ew) & _) Hin.
  rewrite bytes_ofBytes in Hin by (apply Forall_take, bytes_bounded).
  destruct (spellLen_local _ _ _ Ew) as (_ & _ & Hc).
  apply list_elem_of_In, list_elem_of_lookup in Hin as [k Hk].
  apply lookup_take_Some in Hk as [Hk Hlt].
  apply (Hc (scheme_chars w Hw) k 0x3A Hlt Hk). reflexivity.
Qed.

(** X17.  When one of the two parsers succeeds, the input is the returned
    scheme, [://] and the returned address put together again; the scheme
    is one of the list in some letter case and holds no colon, so that it
    ends at the first [://] of the input; the address is not empty and
    holds no newline. *)
Theorem ParseProtoAddr_inv (s p a : string) :
  Csc.ParseProtoAddr s = (p, a, None) \/ Mock.parseProtoAddr s = (p, a, None) ->
  s = (p +:+ "://" +:+ a)%string /\
  Fold.isScheme p = true /\
  a <> EmptyString /\
  Fold.hasNewline a = false /\
  ~ In 0x3A (Regexp.bytes p).
Proof.
  intros H.
  assert (Hm : exists m, Regexp.FindStringSubmatch addrRX 2 s = Some m /\
                         p = index m 1 /\ a = index m 2).
  { unfold Csc.ParseProtoAddr, Mock.parseProtoAddr in H.
    destruct (Regexp.FindStringSubmatch addrRX 2 s) as [m|];
      [|destruct H; discriminate].
    exists m. split; [reflexivity|]. destruct H as [H|H]; injection H as <- <-; auto. }
  destruct Hm as (m & Hf & -> & ->).
  apply find_addrRX_inv in Hf as (n & Hn & ->). cbn [index nth].
  destruct (string_of_parsesAt s n Hn) as (Es & Hp & Ha & Hnl).
  repeat split; auto. apply parsesAt_no_colon, Hn.
Qed.

Lemma isScheme_nonempty p : Fold.isScheme p = true -> p <> EmptyString.
Proof. intros H ->. vm_compute in H. discriminate. Qed.

(** X18.  A parse that fails returns two empty strings, with
    [ErrInvalidCSIEndpoint] in [csc] and with the error that names the
    input in the mock plug-in; a parse succeeds exactly when the scheme it
    returns is not empty; and the two parsers succeed on the same inputs
    and return the same scheme and address. *)
Theorem ParseProtoAddr_failure (s : string) :
  (snd (Csc.ParseProtoAddr s) = None \/
   Csc.ParseProtoAddr s = (EmptyString, EmptyString, Some ErrInvalidCSIEndpoint)) /\
  (snd (Mock.parseProtoAddr s) = None \/
   Mock.parseProtoAddr s = (EmptyString, EmptyString, Some (ErrInvalidAddress s))) /\
  (snd (Csc.ParseProtoAddr s) = None <-> fst (fst (Csc.ParseProtoAddr s)) <> EmptyString) /\
  (snd (Csc.ParseProtoAddr s) = None <-> snd (Mock.parseProtoAddr s) = None) /\
  fst (Csc.ParseProtoAddr s) = fst (Mock.parseProtoAddr s).
Proof.
  unfold Csc.ParseProtoAddr, Mock.parseProtoAddr.
  destruct (Regexp.FindStringSubmatch addrRX 2 s) as [m|] eqn:E; cbn [fst snd].
  - split; [left; reflexivity|]. split; [left; reflexivity|].
    split; [|split; [tauto|reflexivity]].
    split; [intros _|reflexivity].
    apply find_addrRX_inv in E as (n & Hn & ->). cbn [index nth].
    destruct (string_of_parsesAt s n Hn) as (_ & Hp & _).
    apply isScheme_nonempty, Hp.
  - split; [right; reflexivity|]. split; [right; reflexivity|].
    split; [|split; [|reflexivity]]; split; intros H; try discriminate; congruence.
Qed.
Lemma parse_cases s :
  (exists p a, Mock.parseProtoAddr s = (p, a, None) /\ validAddr s p a) \/
  (Mock.parseProtoAddr s = (EmptyString, EmptyString, Some (ErrInvalidAddress s)) /\
   forall p a, ~ validAddr s p a).
Proof.
  unfold Mock.parseProtoAddr.
  destruct (Regexp.FindStringSubmatch addrRX 2 s) as [m|] eqn:E.
  - left. apply find_addrRX_inv in E as (n & Hn & ->). cbn [index nth].
    eexists _, _. split; [reflexivity|]. apply (string_of_parsesAt s n Hn).
  - right. split; [reflexivity|].
    intros p a (-> & Hp & Ha & Hnl).
    destruct (parsesAt_of_string p a Hp Ha Hnl) as (Hn & _).
    rewrite (proj1 (find_addrRX _) _ Hn) in E. discriminate.
Qed.

Lemma validAddr_unique s p a p' a' :
  validAddr s p a -> validAddr s p' a' -> p = p' /\ a = a'.
Proof.
  intros (-> & Hp & Ha & Hnl) (E & Hp' & Ha' & Hnl').
  destruct (parsesAt_of_string p a Hp Ha Hnl) as (Hn & Ep & Ea).
  destruct (parsesAt_of_string p' a' Hp' Ha' Hnl') as (Hn' & Ep' & Ea').
  rewrite <- E in Hn', Ep', Ea'.
  rewrite (parsesAt_unique _ _ _ Hn' Hn) in Ep', Ea'.
  split; congruence.
Qed.

Lemma ParseProtoAddr_inv_witness :
  "unix:///run/csi.sock"%string = ("unix" +:+ "://" +:+ "/run/csi.sock")%string.
Proof.
  apply (ParseProtoAddr_inv "unix:///run/csi.sock" "unix" "/run/csi.sock").
  left. vm_compute. reflexivity.
Defined.

End AddressMoreFacts.

(** ** [main] of the mock plug-in *)
Section MainFacts.
Import Gocsi MockPlugin.

Variable L : Type.
Variable listens : string -> string -> result L.
Variable serves : L -> option error.
Variable Error : error -> string.
Variable Getenv : string -> string.

Local Abbreviation traced_main := (traced_main L listens serves Error Getenv).
Local Abbreviation addr0 := (endpointAddr Getenv).

(** The four ways [main] can go. *)
Lemma main_outcomes :
  ((forall p a, ~ validAddr addr0 p a) /\
   traced_main
   = (Some 1%nat, [DidPrint ("error: invalid endpoint: " +:+ addr0 +:+ Fold.LF)])) \/
  (exists p a, validAddr addr0 p a /\
     ((exists err, listens p a = Err err /\
         traced_main
         = (Some 1%nat,
            [DidListen p a;
             DidPrint ("error: failed to listen: " +:+ Error err +:+ Fold.LF)])) \/
      (exists l err, listens p a = Ok l /\ serves l = Some err /\
         traced_main
         = (Some 1%nat,
            [DidListen p a; DidLog "mock.Init"; DidLog "mock.Serve"; DidServe l;
             DidPrint ("error: grpc failed: " +:+ Error err +:+ Fold.LF)])) \/
      (exists l, listens p a = Ok l /\ serves l = None /\
         traced_main
         = (None,
            [DidListen p a; DidLog "mock.Init"; DidLog "mock.Serve"; DidServe l])))).
Proof.
  unfold MockPlugin.traced_main, main. fold addr0.
  change (if String.eqb (Getenv "CSI_ENDPOINT") "" then "tcp://127.0.0.1:8080"%string
          else Getenv "CSI_ENDPOINT") with addr0.
  destruct (parse_cases addr0) as [(p & a & -> & Hv)|[-> Hno]].
  - right. exists p, a. split; [exact Hv|].
    destruct (listens p a) as [l|err] eqn:El.
    + right. unfold Init, Serve. cbn [app].
      destruct (serves l) as [err|] eqn:Es.
      * left. exists l, err. auto.
      * right. exists l. auto.
    + left. exists err. auto.
  - left. auto.
Qed.

(** X19.  With an endpoint address that does not read as a scheme, [://]
    and a rest without newline, [main] does one thing: it writes
    [error: invalid endpoint:] and the address to the error stream, and
    exits with status 1; it does not listen. *)
Theorem main_invalid_endpoint :
  (forall p a, ~ validAddr addr0 p a) ->
  traced_main
  = (Some 1%nat, [DidPrint ("error: invalid endpoint: " +:+ addr0 +:+ Fold.LF)]).
Proof.
  intros Hno. destruct main_outcomes as [[_ H]|(p & a & Hv & _)]; [exact H|].
  destruct (Hno p a Hv).
Qed.

(** X20.  When [main] listens, it listens on the scheme and the address that
    its endpoint address reads as, it does so before anything else, and it
    listens once. *)
Theorem main_listens_on_parsed (p a : string) :
  In (DidListen p a) (snd traced_main) ->
  validAddr addr0 p a /\
  head (snd traced_main) = Some (DidListen p a) /\
  length (List.filter (fun e => match e with DidListen _ _ => true | _ => false end)
                 (snd traced_main)) = 1%nat.
Proof.
  intros Hin.
  destruct main_outcomes
    as [[_ H]|(p' & a' & Hv & [(err & _ & H)|[(l & err & _ & _ & H)|(l & _ & _ & H)]])];
    rewrite H in *; cbn [snd] in *; simpl in Hin.
  - destruct Hin as [Hin|[]]. discriminate.
  - destruct Hin as [Hin|[Hin|[]]]; [|discriminate]. injection Hin as <- <-. auto.
  - destruct Hin as [Hin|[Hin|[Hin|[Hin|[Hin|[]]]]]]; try discriminate.
    injection Hin as <- <-. auto.
  - destruct Hin as [Hin|[Hin|[Hin|[Hin|[]]]]]; try discriminate.
    injection Hin as <- <-. auto.
Qed.

(** X21.  [main] returns, or exits with status 1.  It returns exactly when
    its endpoint address is valid, the listening succeeds and the serving
    ends without error; it exits with status 1 exactly when the last thing
    it did was to write a line to the error stream; and it never reports a
    failed initialisation of the endpoint. *)
Theorem main_exit_status :
  (fst traced_main = None \/ fst traced_main = Some 1%nat) /\
  (fst traced_main = None <->
   exists p a l, validAddr addr0 p a /\ listens p a = Ok l /\ serves l = None) /\
  (fst traced_main = Some 1%nat <->
   exists text, last (snd traced_main) = Some (DidPrint text)) /\
  (forall err, ~ In (DidPrint ("error: endpoint init failed: " +:+ Error err +:+ Fold.LF))
                    (snd traced_main)).
Proof.
  destruct main_outcomes
    as [[Hno H]|(p & a & Hv & [(err & El & H)|[(l & err & El & Es & H)|(l & El & Es & H)]])];
    rewrite H; cbn [fst snd].
  - split; [right; reflexivity|]. split; [|split].
    + split; [discriminate|]. intros (p & a & l & Hv & _). destruct (Hno p a Hv).
    + split; [eauto|reflexivity].
    + intros err [Hin|[]]. simpl in Hin. discriminate.
  - split; [right; reflexivity|]. split; [|split].
    + split; [discriminate|]. intros (p' & a' & l & Hv' & El' & _).
      destruct (validAddr_unique _ _ _ _ _ Hv Hv') as [<- <-]. congruence.
    + split; [eauto|reflexivity].
    + intros err' [Hin|[Hin|[]]]; simpl in Hin; discriminate.
  - split; [right; reflexivity|]. split; [|split].
    + split; [discriminate|]. intros (p' & a' & l' & Hv' & El' & Es').
      destruct (validAddr_unique _ _ _ _ _ Hv Hv') as [<- <-]. congruence.
    + split; [eauto|reflexivity].
    + intros err' Hin. simpl in Hin.
      repeat (destruct Hin as [Hin|Hin]; try discriminate). destruct Hin.
  - split; [left; reflexivity|]. split; [|split].
    + split; [eauto 6|reflexivity].
    + split; [discriminate|]. intros [text Ht]. discriminate.
    + intros err' Hin. simpl in Hin.
      repeat (destruct Hin as [Hin|Hin]; try discriminate). destruct Hin.
Qed.

(** X22.  With [CSI_ENDPOINT] empty or not set, the first thing [main] does
    is to listen on [tcp] at [127.0.0.1:8080], whatever the network and
    the server answer. *)
Theorem main_default_endpoint :
  Getenv "CSI_ENDPOINT" = EmptyString ->
  head (snd traced_main) = Some (DidListen "tcp" "127.0.0.1:8080").
Proof.
  intros He.
  assert (Ha : addr0 = "tcp://127.0.0.1:8080"%string).
  { unfold endpointAddr. rewrite He. reflexivity. }
  assert (Hv : validAddr addr0 "tcp" "127.0.0.1:8080").
  { rewrite Ha. repeat split; try (vm_compute; reflexivity). discriminate. }
  destruct main_outcomes
    as [[Hno H]|(p & a & Hv' & [(err & _ & H)|[(l & err & _ & _ & H)|(l & _ & _ & H)]])];
    try (destruct (Hno _ _ Hv));
    destruct (validAddr_unique _ _ _ _ _ Hv Hv') as [<- <-]; rewrite H; reflexivity.
Qed.

End MainFacts.

Section MainWitnesses.
Import Gocsi MockPlugin.

Lemma main_invalid_endpoint_witness :
  traced_main unit Demo.listens Demo.serves Demo.errorText Demo.badEndpoint
  = (Some 1%nat,
     [DidPrint ("error: invalid endpoint: " +:+ "http://127.0.0.1:8080" +:+ Fold.LF)]).
Proof.
  apply (main_invalid_endpoint unit Demo.listens Demo.serves Demo.errorText Demo.badEndpoint).
  intros p a Hv.
  destruct (parse_cases (endpointAddr Demo.badEndpoint)) as [(p' & a' & H & _)|[_ Hno]].
  - vm_compute in H. discriminate.
  - apply (Hno p a Hv).
Defined.

Lemma main_listens_on_parsed_witness :
  validAddr (endpointAddr Sample.unset) "tcp" "127.0.0.1:8080".
Proof.
  apply (main_listens_on_parsed unit Demo.listens Demo.serves Demo.errorText Sample.unset
                                "tcp" "127.0.0.1:8080").
  vm_compute. left. reflexivity.
Defined.

Lemma main_default_endpoint_witness :
  head (snd (traced_main unit Demo.listens Demo.serves Demo.errorText Sample.unset))
  = Some (DidListen "tcp" "127.0.0.1:8080").
Proof.
  apply (main_default_endpoint unit Demo.listens Demo.serves Demo.errorText Sample.unset).
  reflexivity.
Defined.

End MainWitnesses.

(** ** The mock plug-in as a provider *)
Section ProviderFacts.
Import Gocsi MockPlugin.
Variables Context X : Type.
Variable Println : string -> X -> X.
Variable grpcServe : Pipe.pipeConn -> X -> option error * (Pipe.pipeConn * X).
Variable Getenv : string -> string.
Variable csvRead : string -> list string * option error.
Variable pluginOpen : string -> result (Plugin Context X).
Variable EqualFold : string -> string -> bool.
Variable rangeOrder : gmap string (ctor Context X) -> list (string * ctor Context X).

Local Abbreviation New := (New Context X Getenv csvRead pluginOpen EqualFold rangeOrder).
Local Abbreviation mockEndpoint := (mockEndpoint Context X Println grpcServe).
Local Abbreviation Endpoints := (Endpoints Context X Println grpcServe).

(** X23.  With an empty registry and one shared object that exports the
    providers of the mock plug-in, [New] for a name that equals [mock] but
    for case returns the endpoint named [mock], bound to the plug-in's
    endpoint on a new piped connection; its [Init] returns no error and
    logs [mock.Init]; its [Shutdown] returns no error, logs
    [mock.Shutdown] and closes the connection. *)
Theorem mock_provider ctx (so name : string) (s : pkg Context X) :
  initOnce _ _ s = false -> endpointCtors _ _ s = ∅ ->
  csvRead (Getenv "CSI_PLUGINS") = ([so], None) ->
  Load.exports Context X pluginOpen so = Ok Endpoints ->
  (forall m, rangeOrder m ≡ₚ map_to_list m) ->
  EqualFold "mock" name = true ->
  let e := mkendpoint "mock" mockEndpoint (Pipe.newPipeConn "mock") in
  fst (New ctx name s) = Ok e /\
  (forall x, endpoint_Init Context X ctx e x = (None, (e, Println "mock.Init" x))) /\
  (forall x, endpoint_Shutdown Context X ctx e x
             = (None, (mkendpoint "mock" mockEndpoint (snd (Pipe.Close (Pipe.newPipeConn "mock"))),
                       Println "mock.Shutdown" x))).
Proof.
  intros Hi He Hcsv Hex Hperm HE. cbn zeta. split; [|split; reflexivity].
  assert (HL : loadSharedObjects Context X Getenv csvRead pluginOpen ctx s
               = (None, mkPkg false Endpoints (S (loads _ _ s)))).
  { rewrite (loadSharedObjects_clean Context X Getenv csvRead pluginOpen ctx s [so] None Hcsv I).
    rewrite (loadEach_all Context X pluginOpen [so] [Endpoints]) by (repeat constructor; exact Hex).
    unfold Load.recordAll. cbn [foldl fst snd]. rewrite Hi, He.
    rewrite record_union, (right_id_L ∅ (∪)). reflexivity. }
  unfold Gocsi.New, Gocsi.Init. rewrite Hi, HL. cbn [fst snd endpointCtors].
  assert (HR : rangeOrder Endpoints = [("mock"%string, fun _ => IsEndpoint mockEndpoint)]).
  { apply Permutation_singleton_r. rewrite Hperm. unfold MockPlugin.Endpoints.
    rewrite map_to_list_singleton. reflexivity. }
  rewrite HR. cbn [lookupCtor]. rewrite HE. reflexivity.
Qed.
End ProviderFacts.

Lemma mock_provider_witness :
  fst (Gocsi.New unit (list string) Gocsi.Sample.oneProvider Gocsi.Sample.csvRead
                 Demo.mockOpen Gocsi.EqualFoldASCII map_to_list tt "MOCK"
                 (Gocsi.mkPkg false ∅ 0))
  = Gocsi.Ok (Gocsi.mkendpoint "mock"
                (MockPlugin.mockEndpoint unit (list string) Demo.Println Demo.grpcServe)
                (Pipe.newPipeConn "mock")).
Proof.
  apply (mock_provider unit (list string) Demo.Println Demo.grpcServe
                       Gocsi.Sample.oneProvider Gocsi.Sample.csvRead Demo.mockOpen
                       Gocsi.EqualFoldASCII map_to_list tt "mock.so" "MOCK"
                       (Gocsi.mkPkg false ∅ 0)).
  - reflexivity.
  - reflexivity.
  - reflexivity.
  - reflexivity.
  - intros m. reflexivity.
  - reflexivity.
Defined.
